(** * Combination summarizer: [export_combinations_and_summary] of testing.py

    A shallow embedding of the single entry point of testing.py and the facts
    proved about it.

    Scope of the model.
    - The table is a pandas DataFrame whose category columns are text columns
      (object dtype): a cell is a string or a missing value.  The measure
      column "slack" is kept apart from the text columns; before
      [pd.to_numeric] one of its cells is a number, a text or a missing value.
      A field list that names "slack" itself as a category is outside the
      model.
      Numeric category columns are outside the table type: how pandas orders
      the string "all" against numbers depends on the pandas version.
    - Numbers are integers ([Z]).  A slack column without a missing cell is
      an int64 column, whose sums wrap around modulo 2^64; a column with a
      missing cell is a float64 column, which the model follows only while
      its arithmetic is exact (integers whose absolute values add up to at
      most 2^53).  Fractional slack is outside the table type, and so is a
      text that pandas reads as a number other than a decimal integer; the
      statements about min_slack and sum_slack say where they need this.
    - [DataFrame.loc] is the one of pandas 2: with exactly two category
      fields a tuple is read as (rows, columns), with three or more as a key
      of the index.
    - Files are kept in a store from paths to contents; a content is the table
      handed to [to_csv]; a path is kept as the two arguments of
      [os.path.join].  Failures of the operating system (os.makedirs,
      to_csv) are not modelled.
    - Exceptions are values of [result]; [try ... except KeyError] is
      [except_KeyError]. *)

From Stdlib Require Import String Ascii.
From Stdlib Require Import List ZArith Bool Arith Lia Permutation Sorted.
Import ListNotations.

Local Open Scope list_scope.

(** ** Exceptions *)

Inductive exception := KeyError | ValueError.

Inductive result (A : Type) : Type :=
| Ok (a : A)
| Raise (e : exception).

Arguments Ok {A} a.
Arguments Raise {A} e.

Definition bind {A B : Type} (m : result A) (k : A -> result B) : result B :=
  match m with
  | Ok a => k a
  | Raise e => Raise e
  end.

Notation "x <- m ;; k" := (bind m (fun x => k))
  (at level 61, m at next level, right associativity).
Notation "' p <- m ;; k" := (bind m (fun x => match x with p => k end))
  (at level 61, p pattern, m at next level, right associativity).

Fixpoint mapM {A B : Type} (f : A -> result B) (l : list A) : result (list B) :=
  match l with
  | [] => Ok []
  | x :: t => y <- f x ;; ys <- mapM f t ;; Ok (y :: ys)
  end.

(** [try: body  except KeyError: handler]: only KeyError is caught. *)
Definition except_KeyError {A : Type} (body : result A) (handler : A) : result A :=
  match body with
  | Raise KeyError => Ok handler
  | other => other
  end.

(** ** The table *)

(** A cell of the "slack" column. *)
Inductive scalar :=
| NaN
| Str (s : string)
| Num (x : Z).

(** A cell of a category column: [None] is a missing value. *)
Definition category := option string.

Record Row := mkRow { cells : list category; slack : scalar }.

(** [columns] names the category (text) columns in header order; [has_slack]
    tells whether the table has a "slack" column. *)
Record DataFrame := mkDF {
  columns : list string;
  has_slack : bool;
  rows : list Row
}.

Fixpoint index_of (c : string) (cols : list string) : option nat :=
  match cols with
  | [] => None
  | h :: t => if String.eqb h c then Some 0
              else option_map S (index_of c t)
  end.

Definition cell (i : nat) (r : Row) : category := nth i (cells r) None.

(** [df[c]] for a category column. *)
Definition get_column (df : DataFrame) (c : string) : result (list category) :=
  match index_of c (columns df) with
  | Some i => Ok (map (cell i) (rows df))
  | None => Raise KeyError
  end.

(** [Series.dropna()] *)
Fixpoint dropna (l : list category) : list string :=
  match l with
  | [] => []
  | Some s :: t => s :: dropna t
  | None :: t => dropna t
  end.

(** [Series.unique()]: distinct values in order of first appearance. *)
Fixpoint unique (l : list string) : list string :=
  match l with
  | [] => []
  | x :: t => x :: filter (fun y => negb (String.eqb x y)) (unique t)
  end.

(** ** Sorting *)

Section InsertionSort.
Context {A : Type} (leb : A -> A -> bool).

Fixpoint insert (x : A) (l : list A) : list A :=
  match l with
  | [] => [x]
  | y :: t => if leb x y then x :: l else y :: insert x t
  end.

Fixpoint isort (l : list A) : list A :=
  match l with
  | [] => []
  | x :: t => insert x (isort t)
  end.
End InsertionSort.

(** Python's [sorted] on a list of [str]. *)
Definition sorted (l : list string) : list string := isort String.leb l.

(** Lexicographic order on tuples of strings (the sort keys of the summary). *)
Fixpoint tuple_compare (a b : list string) : comparison :=
  match a, b with
  | [], [] => Eq
  | [], _ :: _ => Lt
  | _ :: _, [] => Gt
  | x :: a', y :: b' =>
      match String.compare x y with
      | Eq => tuple_compare a' b'
      | c => c
      end
  end.

Definition tuple_leb (a b : list string) : bool :=
  match tuple_compare a b with Gt => false | _ => true end.

(** Order of index labels: missing values sort last. *)
Definition category_compare (a b : category) : comparison :=
  match a, b with
  | None, None => Eq
  | None, Some _ => Gt
  | Some _, None => Lt
  | Some x, Some y => String.compare x y
  end.

Fixpoint key_compare (a b : list category) : comparison :=
  match a, b with
  | [], [] => Eq
  | [], _ :: _ => Lt
  | _ :: _, [] => Gt
  | x :: a', y :: b' =>
      match category_compare x y with
      | Eq => key_compare a' b'
      | c => c
      end
  end.

Definition key_leb (a b : list category) : bool :=
  match key_compare a b with Gt => false | _ => true end.

(** ** Numeric coercion: [pd.to_numeric(..., errors="coerce")] *)

Definition digit (c : ascii) : option Z :=
  let n := nat_of_ascii c in
  if (48 <=? n)%nat && (n <=? 57)%nat then Some (Z.of_nat (n - 48)) else None.

Fixpoint parse_digits (acc : Z) (s : string) : option Z :=
  match s with
  | EmptyString => Some acc
  | String c t =>
      match digit c with
      | Some d => parse_digits (10 * acc + d)%Z t
      | None => None
      end
  end.

(** Decimal integer numerals, the numbers the model represents. *)
Definition parse_number (s : string) : option Z :=
  match s with
  | EmptyString => None
  | String "-"%char (String _ _ as t) => option_map Z.opp (parse_digits 0 t)
  | String "+"%char (String _ _ as t) => parse_digits 0 t
  | String "-"%char EmptyString => None
  | String "+"%char EmptyString => None
  | _ => parse_digits 0 s
  end.

Definition to_numeric (v : scalar) : scalar :=
  match v with
  | NaN => NaN
  | Num x => Num x
  | Str s => match parse_number s with Some x => Num x | None => NaN end
  end.

(** [df["slack"] = pd.to_numeric(df["slack"], errors="coerce")] *)
Definition coerce_slack (df : DataFrame) : result DataFrame :=
  if has_slack df then
    Ok (mkDF (columns df) true
             (map (fun r => mkRow (cells r) (to_numeric (slack r))) (rows df)))
  else Raise KeyError.

(** The value of a cell of a numeric column; missing is [None]. *)
Definition as_float (v : scalar) : option Z :=
  match v with
  | Num x => Some x
  | _ => None
  end.

(** ** Pre-aggregation: [df.groupby(filter_cols, dropna=False).agg(...)] *)

Definition category_eqb (a b : category) : bool :=
  match a, b with
  | None, None => true
  | Some x, Some y => String.eqb x y
  | _, _ => false
  end.

Fixpoint key_eqb (a b : list category) : bool :=
  match a, b with
  | [], [] => true
  | x :: a', y :: b' => category_eqb x y && key_eqb a' b'
  | _, _ => false
  end.

(** The group key of a row: its cells at the grouping columns. *)
Definition key_of (idx : list nat) (r : Row) : list category :=
  map (fun i => cell i r) idx.

Fixpoint unique_keys (l : list (list category)) : list (list category) :=
  match l with
  | [] => []
  | k :: t => k :: filter (fun k' => negb (key_eqb k k')) (unique_keys t)
  end.

(** Aggregations of a numeric series; missing values are skipped, the minimum
    of nothing is missing and the sum of nothing is 0. *)
Definition min_skipna (a b : option Z) : option Z :=
  match a, b with
  | None, _ => b
  | _, None => a
  | Some x, Some y => Some (Z.min x y)
  end.

Definition add_skipna (a : option Z) (acc : Z) : Z :=
  match a with
  | Some x => (x + acc)%Z
  | None => acc
  end.

Definition series_min (l : list (option Z)) : option Z :=
  fold_right min_skipna None l.

Definition series_sum (l : list (option Z)) : Z :=
  fold_right add_skipna 0%Z l.

(** Two's-complement wrap-around of int64 arithmetic. *)
Definition wrap64 (z : Z) : Z :=
  ((z + 2 ^ 63) mod 2 ^ 64 - 2 ^ 63)%Z.

(** The sum of a numeric column of the given dtype: int64 sums wrap. *)
Definition machine_sum (int64 : bool) (z : Z) : Z :=
  if int64 then wrap64 z else z.

(** The dtype of the coerced slack column: int64 when no cell is missing,
    float64 otherwise. *)
Definition int64_column (rs : list Row) : bool :=
  forallb (fun r => match slack r with Num _ => true | _ => false end) rs.

(** One row of [agg]: the index tuple and the three aggregates; [g_int64] is
    the dtype of the slack aggregates, the same in every row. *)
Record Group := mkGroup {
  gkey : list category;
  g_rows : nat;
  g_min_slack : option Z;
  g_sum_slack : Z;
  g_int64 : bool
}.

Definition members (idx : list nat) (k : list category) (rs : list Row) : list Row :=
  filter (fun r => key_eqb (key_of idx r) k) rs.

Definition aggregate (idx : list nat) (rs : list Row) (k : list category) : Group :=
  let g := map (fun r => as_float (slack r)) (members idx k rs) in
  mkGroup k (length g) (series_min g)
          (machine_sum (int64_column rs) (series_sum g)) (int64_column rs).

(** The index tuples of [agg], sorted ([groupby] sorts its keys, and
    [agg.sort_index()] sorts again). *)
Definition group_keys (idx : list nat) (rs : list Row) : list (list category) :=
  isort key_leb (unique_keys (map (key_of idx) rs)).

Definition column_indices (df : DataFrame) (cols : list string) : result (list nat) :=
  mapM (fun c => match index_of c (columns df) with
                 | Some i => Ok i
                 | None => Raise KeyError
                 end) cols.

(** [groupby] refuses an empty list of keys ("No group keys passed!"). *)
Definition groupby_agg (df : DataFrame) (filter_cols : list string) : result (list Group) :=
  match filter_cols with
  | [] => Raise ValueError
  | _ :: _ =>
      idx <- column_indices df filter_cols ;;
      Ok (map (aggregate idx (rows df)) (group_keys idx (rows df)))
  end.

(** ** Resolution of a combination: [agg.loc[slicer]] *)

Definition wildcard : string := "all".

Inductive indexer :=
| SliceAll                 (* slice(None) *)
| Label (v : string).

Definition slicer_of (combo : list string) : list indexer :=
  map (fun v => if String.eqb v wildcard then SliceAll else Label v) combo.

Definition is_label (ix : indexer) : bool :=
  match ix with Label _ => true | SliceAll => false end.

Definition selects_level (ix : indexer) (c : category) : bool :=
  match ix with
  | SliceAll => true
  | Label v => category_eqb (Some v) c
  end.

Fixpoint selects (sl : list indexer) (k : list category) : bool :=
  match sl, k with
  | [], [] => true
  | ix :: sl', c :: k' => selects_level ix c && selects sl' k'
  | _, _ => false
  end.

(** Every label of the slicer occurs in its level of the index. *)
Fixpoint labels_known (agg : list Group) (lvl : nat) (sl : list indexer) : bool :=
  match sl with
  | [] => true
  | ix :: sl' =>
      match ix with
      | SliceAll => true
      | Label v => existsb (fun g => category_eqb (Some v) (nth lvl (gkey g) None)) agg
      end && labels_known agg (S lvl) sl'
  end.

(** What [agg.loc[slicer]] returns: one row as a Series, or a sub-frame. *)
Inductive selection :=
| SeriesRow (g : Group)
| Frame (gs : list Group).

(** The slicer that [DataFrame.loc] does not take for a key of the index:
    with exactly two levels, [(slice(None), v)] has as many entries as the
    frame has axes and is read as (all rows, column [v]). *)
Definition column_lookup (sl : list indexer) : bool :=
  match sl with
  | [SliceAll; Label _] => true
  | _ => false
  end.

(** A complete tuple of labels is looked up exactly and is a KeyError when
    absent.  [(slice(None), v)] on two levels asks for the column [v] of
    [agg], whose columns are rows, min_slack and sum_slack: a KeyError.  (A
    category value that is itself one of these three names is not followed
    further.)  Any other slicer with a slice is a partial key of the index: a
    label absent from its level is a KeyError; otherwise the groups that
    agree on every label are returned, possibly none. *)
Definition loc (agg : list Group) (sl : list indexer) : result selection :=
  if forallb is_label sl then
    match find (fun g => selects sl (gkey g)) agg with
    | Some g => Ok (SeriesRow g)
    | None => Raise KeyError
    end
  else if column_lookup sl then Raise KeyError
  else if labels_known agg 0 sl then
    Ok (Frame (filter (fun g => selects sl (gkey g)) agg))
  else Raise KeyError.

Definition stats : Type := (nat * option Z * Z)%type.

(** Lines 41-52: the try block and its KeyError fallback. *)
Definition resolve (agg : list Group) (combo : list string) : result stats :=
  except_KeyError
    (sub <- loc agg (slicer_of combo) ;;
     match sub with
     | SeriesRow g => Ok (g_rows g, g_min_slack g, g_sum_slack g)
     | Frame gs =>
         Ok (list_sum (map g_rows gs),
             series_min (map g_min_slack gs),
             machine_sum (forallb g_int64 gs)
                         (fold_right Z.add 0%Z (map g_sum_slack gs)))
     end)
    (0, None, 0%Z).

(** ** Python dictionaries (insertion ordered) *)

Definition dict (V : Type) : Type := list (string * V).

Fixpoint dict_set {V : Type} (d : dict V) (k : string) (v : V) : dict V :=
  match d with
  | [] => [(k, v)]
  | (k', v') :: t =>
      if String.eqb k' k then (k', v) :: t else (k', v') :: dict_set t k v
  end.

Fixpoint dict_get {V : Type} (d : dict V) (k : string) : option V :=
  match d with
  | [] => None
  | (k', v') :: t => if String.eqb k' k then Some v' else dict_get t k
  end.

(** [dict(zip(keys, values))] *)
Definition dict_zip {V : Type} (keys : list string) (values : list V) : dict V :=
  fold_left (fun d kv => dict_set d (fst kv) (snd kv)) (combine keys values) [].

(** [itertools.product] of the lists: the last list varies fastest. *)
Fixpoint product {A : Type} (lists : list (list A)) : list (list A) :=
  match lists with
  | [] => [[]]
  | l :: rest => flat_map (fun x => map (cons x) (product rest)) l
  end.

(** ** Output files *)

(** [os.path.join(dir, name)], kept as its two components. *)
Record path := mkPath { dir : string; name : string }.

Definition path_eqb (p q : path) : bool :=
  String.eqb (dir p) (dir q) && String.eqb (name p) (name q).

(** One row of the summary table: the category cells in the order of
    [filter_cols], then rows, min_slack and sum_slack. *)
Record SummaryRow := mkSummaryRow {
  s_cats : list category;
  s_rows : nat;
  s_min_slack : option Z;
  s_sum_slack : Z
}.

Record Summary := mkSummary {
  s_columns : list string;
  s_body : list SummaryRow
}.

(** What [to_csv] was given. *)
Inductive content :=
| FrameCsv (df : DataFrame)
| SummaryCsv (s : Summary).

(** The file store; the newest write of a path comes first. *)
Definition filesystem : Type := list (path * content).

Definition write (p : path) (c : content) (fs : filesystem) : filesystem :=
  (p, c) :: fs.

Fixpoint read (fs : filesystem) (p : path) : option content :=
  match fs with
  | [] => None
  | (q, c) :: t => if path_eqb q p then Some c else read t p
  end.

(** ** The body of the loop over combinations *)

(** Lines 61-64: [subset = subset[subset[c] == v]] for every concrete
    assignment. *)
Fixpoint filter_subset (subset : DataFrame) (filters : dict string) : result DataFrame :=
  match filters with
  | [] => Ok subset
  | (c, v) :: rest =>
      if negb (String.eqb v wildcard) then
        match index_of c (columns subset) with
        | Some i =>
            filter_subset
              (mkDF (columns subset) (has_slack subset)
                    (filter (fun r => category_eqb (cell i r) (Some v)) (rows subset)))
              rest
        | None => Raise KeyError
        end
      else filter_subset subset rest
  end.

(** [str(v).replace('/', '_')] *)
Fixpoint replace_slash (s : string) : string :=
  match s with
  | EmptyString => EmptyString
  | String c t =>
      String (if Ascii.eqb c "/"%char then "_"%char else c) (replace_slash t)
  end.

(** Lines 65-66: the name of the subset file. *)
Definition fname_parts (filters : dict string) : list string :=
  map (fun cv => (fst cv ++ "-" ++ replace_slash (snd cv))%string) filters.

Definition out_name (filters : dict string) : string :=
  (String.concat "_" (fname_parts filters) ++ ".csv")%string.

(** The summary entry of a combination (line 54), read back through the
    column selection of line 71: the cell of column [c] is the entry's value
    at key [c]. *)
Definition summary_entry (filter_cols : list string) (filters : dict string)
    (st : stats) : SummaryRow :=
  let '(row_count, min_sl, sum_sl) := st in
  mkSummaryRow (map (dict_get filters) filter_cols) row_count min_sl sum_sl.

Definition loop_state : Type := (list SummaryRow * filesystem)%type.

(** Lines 36-67 for one [combo]. *)
Definition loop_body (df : DataFrame) (agg : list Group)
    (filter_cols : list string) (outdir : string) (export_filtered_csvs : bool)
    (acc : loop_state) (combo : list string) : result loop_state :=
  let filters := dict_zip filter_cols combo in
  st <- resolve agg combo ;;
  let summary_rows := fst acc ++ [summary_entry filter_cols filters st] in
  if export_filtered_csvs && (0 <? fst (fst st))%nat then
    subset <- filter_subset df filters ;;
    Ok (summary_rows,
        write (mkPath outdir (out_name filters)) (FrameCsv subset) (snd acc))
  else Ok (summary_rows, snd acc).

Fixpoint for_each {S A : Type} (body : S -> A -> result S) (acc : S) (l : list A)
  : result S :=
  match l with
  | [] => Ok acc
  | x :: t => acc' <- body acc x ;; for_each body acc' t
  end.

(** ** The summary table *)

Definition stat_columns : list string := ["rows"; "min_slack"; "sum_slack"]%string.

Fixpoint unique_labels (l : list string) : bool :=
  match l with
  | [] => true
  | x :: t => negb (existsb (String.eqb x) t) && unique_labels t
  end.

Definition row_leb (a b : SummaryRow) : bool := key_leb (s_cats a) (s_cats b).

(** [summary_df.sort_values(by=filter_cols, ascending=...)]: a column label
    that occurs twice is refused ("The column label ... is not unique");
    missing values would sort last.  Rows with equal keys are equal rows
    here, so the order among them is immaterial. *)
Definition sort_values (s : Summary) : result Summary :=
  if unique_labels (s_columns s)
  then Ok (mkSummary (s_columns s) (isort row_leb (s_body s)))
  else Raise ValueError.

(** The domain of a category column (line 20). *)
Definition value_list (df : DataFrame) (c : string) : result (list string) :=
  col <- get_column df c ;;
  Ok (sorted (unique (dropna col)) ++ [wildcard]).

(** ** The entry point *)

Record outcome := mkOutcome {
  summary_df : Summary;      (* the returned table *)
  df_after : DataFrame;      (* the caller's table after the call *)
  fs_after : filesystem
}.

Definition export_combinations_and_summary (fs : filesystem) (df : DataFrame)
    (filter_cols : list string) (outdir summary_csv : string)
    (export_filtered_csvs : bool) : result outcome :=
  value_lists <- mapM (value_list df) filter_cols ;;
  df' <- coerce_slack df ;;
  agg <- groupby_agg df' filter_cols ;;
  '(summary_rows, fs') <-
     for_each (loop_body df' agg filter_cols outdir export_filtered_csvs)
              ([], fs) (product value_lists) ;;
  summary <- sort_values (mkSummary (filter_cols ++ stat_columns) summary_rows) ;;
  Ok (mkOutcome summary df'
        (write (mkPath outdir summary_csv) (SummaryCsv summary) fs')).

(** ** Quantities the statements speak about *)

(** A combination has no wildcard. *)
Definition concrete (combo : list string) : bool :=
  forallb (fun v => negb (String.eqb v wildcard)) combo.

(** A row agrees with a combination on every field that is not the wildcard. *)
Definition matches (idx : list nat) (combo : list string) (r : Row) : bool :=
  selects (slicer_of combo) (key_of idx r).

(** A row's category fields are exactly the combination's values. *)
Definition matches_exactly (idx : list nat) (combo : list string) (r : Row) : bool :=
  key_eqb (key_of idx r) (map Some combo).

Definition slack_values (rs : list Row) : list (option Z) :=
  map (fun r => as_float (slack r)) rs.

(** The example of the specification, section 8. *)
Definition example_df : DataFrame :=
  mkDF ["endpoint"; "corner"]%string true
    [ mkRow [Some "E1"; Some "C1"]%string (Num 1);
      mkRow [Some "E1"; Some "C1"]%string (Num (-2));
      mkRow [Some "E2"; Some "C1"]%string (Num 3) ].

Definition example_cols : list string := ["endpoint"; "corner"]%string.

(** The column positions of the category fields (0 for an absent column). *)
Definition indices_of (df : DataFrame) (cols : list string) : list nat :=
  map (fun c => match index_of c (columns df) with Some i => i | None => 0 end) cols.

(** The count the index stores for a tuple; a tuple without a group has no
    stored count, read as 0. *)
Definition index_count (agg : list Group) (k : list category) : nat :=
  match find (fun g => key_eqb (gkey g) k) agg with
  | Some g => g_rows g
  | None => 0
  end.


(** A summary row without a wildcard. *)
Definition concrete_row (row : SummaryRow) : bool :=
  forallb (fun c => negb (category_eqb c (Some wildcard))) (s_cats row).

(** No cell of the category fields is missing or the literal "all". *)
Definition plain_cells (idx : list nat) (rs : list Row) : bool :=
  forallb (fun r =>
    forallb (fun c => match c with
                      | Some s => negb (String.eqb s wildcard)
                      | None => false
                      end) (key_of idx r)) rs.

(** The summary path. *)
Definition summary_path (outdir summary_csv : string) : path :=
  mkPath outdir summary_csv.

(** The file name as the specification words it: one part "field-value" per
    category field in order, joined with underscores, ".csv" appended. *)
Definition spec_file_name (filter_cols combo : list string) : string :=
  (String.concat "_"
     (map (fun cv => fst cv ++ "-" ++ replace_slash (snd cv)) (combine filter_cols combo))
   ++ ".csv")%string.

(** An aggregate written as a fold of a commutative operation over rows;
    row count, skip-missing sum and skip-missing minimum are instances. *)
Definition measure {M : Type} (op : M -> M -> M) (e : M) (w : Row -> M)
    (rs : list Row) : M :=
  fold_right (fun r acc => op (w r) acc) e rs.

Definition slack_or_zero (r : Row) : Z := add_skipna (as_float (slack r)) 0%Z.

(** The pre-aggregation index over the columns at positions [idx]. *)
Definition agg_of (idx : list nat) (rs : list Row) : list Group :=
  map (aggregate idx rs) (group_keys idx rs).

(** ** The run, in closed form *)

(** The domain of the category column at position [i]. *)
Definition domain (i : nat) (rs : list Row) : list string :=
  sorted (unique (dropna (map (cell i) rs))) ++ [wildcard].

(** The rows after the coercion of slack. *)
Definition coerced (rs : list Row) : list Row :=
  map (fun r => mkRow (cells r) (to_numeric (slack r))) rs.

(** The enumerated combinations, in enumeration order. *)
Definition combinations (df : DataFrame) (cols : list string) : list (list string) :=
  product (map (fun i => domain i (rows df)) (indices_of df cols)).

(** The rows of the table that a combination selects. *)
Definition subset_of (df : DataFrame) (idx : list nat) (combo : list string) : DataFrame :=
  mkDF (columns df) (has_slack df) (filter (matches idx combo) (rows df)).

(** The summary record of a combination. *)
Definition record_of (combo : list string) (st : stats) : SummaryRow :=
  mkSummaryRow (map Some combo) (fst (fst st)) (snd (fst st)) (snd st).

(** The rows whose statistics the lookup of a combination reports: the rows
    that agree with it on its concrete fields, except that the two-field
    combination [("all", v)] finds nothing (see [column_lookup]). *)
Definition picked (idx : list nat) (combo : list string) (rs : list Row) : list Row :=
  if column_lookup (slicer_of combo) then [] else filter (matches idx combo) rs.

(** The statistics of a selection [sel] of the rows [rs], as the machine
    computes them. *)
Definition machine_stats (rs sel : list Row) : stats :=
  (length sel, series_min (slack_values sel),
   machine_sum (int64_column rs) (series_sum (slack_values sel))).

Definition entry_of (idx : list nat) (rs : list Row) (combo : list string) : SummaryRow :=
  record_of combo (machine_stats rs (picked idx combo rs)).

(** The effect of one combination on the file store. *)
Definition export_step (df : DataFrame) (idx : list nat) (cols : list string)
    (outdir : string) (flag : bool) (fs : filesystem) (combo : list string) : filesystem :=
  if flag && (0 <? length (picked idx combo (rows df)))%nat
  then write (mkPath outdir (spec_file_name cols combo))
             (FrameCsv (subset_of df idx combo)) fs
  else fs.

(** The calls that return: every category field and "slack" are columns, there
    is at least one category field, and the labels of the summary table are
    pairwise distinct. *)
Definition accepted (df : DataFrame) (cols : list string) : bool :=
  forallb (fun c => existsb (String.eqb c) (columns df)) cols
  && has_slack df
  && negb (match cols with [] => true | _ => false end)
  && unique_labels (cols ++ stat_columns).

Definition table_after (df : DataFrame) : DataFrame :=
  mkDF (columns df) true (coerced (rows df)).

Definition summary_of (df : DataFrame) (cols : list string) : Summary :=
  mkSummary (cols ++ stat_columns)
    (isort row_leb
       (map (entry_of (indices_of df cols) (coerced (rows df))) (combinations df cols))).

Definition files_of (fs : filesystem) (df : DataFrame) (cols : list string)
    (outdir : string) (flag : bool) : filesystem :=
  fold_left (export_step (table_after df) (indices_of df cols) cols outdir flag)
            (combinations df cols) fs.

Definition outcome_of (fs : filesystem) (df : DataFrame) (cols : list string)
    (outdir summary_csv : string) (flag : bool) : outcome :=
  mkOutcome (summary_of df cols) (table_after df)
    (write (summary_path outdir summary_csv) (SummaryCsv (summary_of df cols))
           (files_of fs df cols outdir flag)).

(** The sum of the row counts of the records without a wildcard. *)
Definition concrete_total (s : Summary) : nat :=
  list_sum (map s_rows (filter concrete_row (s_body s))).

Definition nonwild (v : string) : bool := negb (String.eqb v wildcard).

(** A table with a missing category cell. *)
Definition missing_cell_df : DataFrame :=
  mkDF ["corner"%string] true [mkRow [None] (Num 1)].

(** A table whose category column holds the literal "all". *)
Definition literal_all_df : DataFrame :=
  mkDF ["corner"%string] true [mkRow [Some "all"%string] (Num 1)].

(** The table has a column of that name. *)
Definition has_column (df : DataFrame) (c : string) : bool :=
  if String.eqb c "slack" then has_slack df else existsb (String.eqb c) (columns df).

(** A combination with the value at position [j] replaced by [v]. *)
Definition refine (j : nat) (v : string) (combo : list string) : list string :=
  firstn j combo ++ v :: skipn (S j) combo.

(** The number of rows of the table that a combination selects. *)
Definition count_of (df : DataFrame) (cols combo : list string) : nat :=
  length (filter (matches (indices_of df cols) combo) (rows df)).

(** A category cell that is neither missing nor the literal "all". *)
Definition plain (c : category) : bool :=
  match c with
  | Some s => nonwild s
  | None => false
  end.

(** The row count that a summary table reports for a category tuple (0 when
    the tuple has no record). *)
Definition summary_count (s : Summary) (k : list category) : nat :=
  match find (fun row => key_eqb (s_cats row) k) (s_body s) with
  | Some row => s_rows row
  | None => 0
  end.

(** A slack cell that [pd.to_numeric] turns into what the model says: a
    number, a missing value, or the text of a decimal integer. *)
Definition plain_number (v : scalar) : bool :=
  match v with
  | NaN => true
  | Num _ => true
  | Str s => match parse_number s with Some _ => true | None => false end
  end.

(** The sum of the absolute values of the numeric slack of some rows. *)
Definition magnitude (rs : list Row) : Z :=
  fold_right (fun r acc => (Z.abs (slack_or_zero r) + acc)%Z) 0%Z rs.

(** The tables on which int64 and float64 arithmetic is exact: every slack
    cell is a [plain_number] and the absolute values of the coerced slack add
    up to at most 2^53, so no sum of any of them, in any order, is rounded or
    wraps. *)
Definition exact_slack (df : DataFrame) : bool :=
  forallb (fun r => plain_number (slack r)) (rows df)
  && (magnitude (coerced (rows df)) <=? 2 ^ 53)%Z.

(** A table with three category fields; one slack is missing. *)
Definition example3_cols : list string := ["path_last"; "endpoint"; "corner"]%string.

Definition example3_df : DataFrame :=
  mkDF example3_cols true
    [ mkRow [Some "P1"; Some "E1"; Some "C1"]%string (Num 1);
      mkRow [Some "P1"; Some "E1"; Some "C1"]%string (Num (-2));
      mkRow [Some "P1"; Some "E2"; Some "C1"]%string (Num 3);
      mkRow [Some "P2"; Some "E2"; Some "C2"]%string NaN ].


(** Three category fields; every row holds the literal "all" in the first. *)
Definition literal_all3_df : DataFrame :=
  mkDF example3_cols true
    [ mkRow [Some "all"; Some "E1"; Some "C1"]%string (Num 1) ].

(** Three category fields; the literal "all" next to another value. *)
Definition mixed_all3_df : DataFrame :=
  mkDF example3_cols true
    [ mkRow [Some "all"; Some "E1"; Some "C1"]%string (Num 1);
      mkRow [Some "P1"; Some "E1"; Some "C1"]%string (Num 2) ].

(** No category cell of the table is the name of a column of [agg].  With
    two category fields such a value would make [agg.loc] select that column
    instead of failing, which the model does not follow. *)
Definition reserved_free (idx : list nat) (rs : list Row) : bool :=
  forallb (fun r =>
    forallb (fun c => match c with
                      | Some s => negb (existsb (String.eqb s) stat_columns)
                      | None => true
                      end) (key_of idx r)) rs.

(** * Properties *)

(** ** Equality tests *)

Lemma category_eqb_eq (a b : category) : category_eqb a b = true <-> a = b.
Proof.
  destruct a as [x|], b as [y|]; simpl; try (split; congruence).
  rewrite String.eqb_eq. split; congruence.
Qed.

Lemma category_eqb_refl (a : category) : category_eqb a a = true.
Proof. now apply category_eqb_eq. Qed.

Lemma category_eqb_sym (a b : category) : category_eqb a b = category_eqb b a.
Proof.
  destruct (category_eqb a b) eqn:E.
  - apply category_eqb_eq in E. subst. now rewrite category_eqb_refl.
  - destruct (category_eqb b a) eqn:E'; [|reflexivity].
    apply category_eqb_eq in E'. subst. now rewrite category_eqb_refl in E.
Qed.

Lemma key_eqb_eq (a b : list category) : key_eqb a b = true <-> a = b.
Proof.
  revert b. induction a as [|x a IH]; intros [|y b]; simpl; try (split; congruence).
  rewrite andb_true_iff, category_eqb_eq, IH. split.
  - intros [-> ->]. reflexivity.
  - intros H. injection H as -> ->. auto.
Qed.

Lemma key_eqb_refl (a : list category) : key_eqb a a = true.
Proof. now apply key_eqb_eq. Qed.

Lemma key_eqb_neq (a b : list category) : key_eqb a b = false <-> a <> b.
Proof.
  rewrite <- key_eqb_eq. destruct (key_eqb a b); split; congruence.
Qed.

(** ** Insertion sort *)

Section InsertionSortFacts.
Context {A : Type} (leb : A -> A -> bool).
Hypothesis leb_total : forall a b, leb a b = true \/ leb b a = true.

Lemma insert_perm (x : A) (l : list A) : Permutation (x :: l) (insert leb x l).
Proof.
  induction l as [|y t IH]; simpl.
  - reflexivity.
  - destruct (leb x y).
    + reflexivity.
    + rewrite perm_swap. now apply perm_skip.
Qed.

Lemma isort_perm (l : list A) : Permutation l (isort leb l).
Proof.
  induction l as [|x t IH]; simpl.
  - constructor.
  - rewrite <- insert_perm. now apply perm_skip.
Qed.

Lemma insert_sorted (x : A) (l : list A) :
  Sorted (fun a b => leb a b = true) l ->
  Sorted (fun a b => leb a b = true) (insert leb x l).
Proof.
  induction 1 as [|y t Hs IH Hd]; simpl.
  - repeat constructor.
  - destruct (leb x y) eqn:E.
    + constructor; [constructor; assumption | constructor; assumption].
    + constructor; [exact IH|].
      assert (Hyx : leb y x = true) by (destruct (leb_total x y); congruence).
      destruct t as [|z t']; simpl.
      * constructor. exact Hyx.
      * destruct (leb x z); constructor; [exact Hyx|].
        now inversion Hd.
Qed.

Lemma isort_sorted (l : list A) : Sorted (fun a b => leb a b = true) (isort leb l).
Proof.
  induction l as [|x t IH]; simpl.
  - constructor.
  - now apply insert_sorted.
Qed.
End InsertionSortFacts.

Lemma isort_in {A : Type} (leb : A -> A -> bool) (l : list A) (x : A) :
  In x (isort leb l) <-> In x l.
Proof.
  split; apply Permutation_in; [symmetry|]; apply isort_perm.
Qed.

Lemma isort_NoDup {A : Type} (leb : A -> A -> bool) (l : list A) :
  NoDup l -> NoDup (isort leb l).
Proof. apply Permutation_NoDup, isort_perm. Qed.

(** ** The index tuples *)

Lemma unique_keys_in (l : list (list category)) (k : list category) :
  In k (unique_keys l) <-> In k l.
Proof.
  induction l as [|h t IH]; simpl; [tauto|].
  rewrite filter_In, IH, negb_true_iff, key_eqb_neq.
  destruct (key_eqb h k) eqn:E.
  - apply key_eqb_eq in E. subst. split; [tauto|]. intros _. now left.
  - apply key_eqb_neq in E. split; [tauto|].
    intros [?|?]; [congruence|]. right. split; assumption.
Qed.

Lemma unique_keys_NoDup (l : list (list category)) : NoDup (unique_keys l).
Proof.
  induction l as [|h t IH]; simpl; constructor.
  - rewrite filter_In, negb_true_iff, key_eqb_neq. tauto.
  - now apply NoDup_filter.
Qed.

Lemma group_keys_NoDup (idx : list nat) (rs : list Row) : NoDup (group_keys idx rs).
Proof. apply isort_NoDup, unique_keys_NoDup. Qed.

Lemma group_keys_in (idx : list nat) (rs : list Row) (k : list category) :
  In k (group_keys idx rs) <-> exists r, In r rs /\ key_of idx r = k.
Proof.
  unfold group_keys. rewrite isort_in, unique_keys_in, in_map_iff.
  split; intros [r [H1 H2]]; exists r; tauto.
Qed.

(** ** Rolling groups up *)

Lemma members_cons (idx : list nat) (k : list category) (r : Row) (rs : list Row) :
  members idx k (r :: rs) =
  if key_eqb (key_of idx r) k then r :: members idx k rs else members idx k rs.
Proof. reflexivity. Qed.

Lemma existsb_key_in (k : list category) (K : list (list category)) :
  existsb (key_eqb k) K = true <-> In k K.
Proof.
  rewrite existsb_exists. split.
  - intros [k' [Hin E]]. apply key_eqb_eq in E. now subst.
  - intros Hin. exists k. split; [assumption | apply key_eqb_refl].
Qed.

Section Rollup.
Context {M : Type} (op : M -> M -> M) (e : M) (w : Row -> M).
Hypothesis op_assoc : forall a b c, op a (op b c) = op (op a b) c.
Hypothesis op_comm : forall a b, op a b = op b a.
Hypothesis op_unit : forall a, op e a = a.

Variable idx : list nat.

Let per_key (rs : list Row) (k : list category) : M :=
  measure op e w (members idx k rs).

Lemma fold_units (K : list (list category)) :
  fold_right op e (map (per_key []) K) = e.
Proof.
  induction K as [|k K IH]; simpl; [reflexivity|].
  rewrite IH. apply op_unit.
Qed.

Lemma rollup_step (K : list (list category)) (r : Row) (rs : list Row) :
  NoDup K ->
  fold_right op e (map (per_key (r :: rs)) K) =
  if existsb (key_eqb (key_of idx r)) K
  then op (w r) (fold_right op e (map (per_key rs) K))
  else fold_right op e (map (per_key rs) K).
Proof.
  induction 1 as [|k K Hnin Hnd IH]; simpl; [reflexivity|].
  unfold per_key at 1. rewrite members_cons.
  destruct (key_eqb (key_of idx r) k) eqn:E; simpl.
  - apply key_eqb_eq in E. subst k.
    rewrite IH.
    destruct (existsb (key_eqb (key_of idx r)) K) eqn:Ex.
    + apply existsb_key_in in Ex. contradiction.
    + unfold measure; simpl. now rewrite <- op_assoc.
  - rewrite IH. fold (per_key rs k).
    destruct (existsb (key_eqb (key_of idx r)) K); [|reflexivity].
    rewrite !op_assoc. f_equal. apply op_comm.
Qed.

Lemma rollup (P : list category -> bool) (K : list (list category)) (rs : list Row) :
  NoDup K ->
  (forall r, In r rs -> P (key_of idx r) = true -> In (key_of idx r) K) ->
  fold_right op e (map (per_key rs) (filter P K)) =
  measure op e w (filter (fun r => P (key_of idx r)) rs).
Proof.
  intros Hnd. induction rs as [|r rs IH]; intros Hcov.
  - simpl. apply fold_units.
  - rewrite rollup_step by now apply NoDup_filter.
    rewrite IH by (intros; apply Hcov; [now right | assumption]).
    simpl. destruct (P (key_of idx r)) eqn:HP.
    + assert (Hex : existsb (key_eqb (key_of idx r)) (filter P K) = true).
      { apply existsb_key_in, filter_In. split; [|assumption].
        apply Hcov; [now left | assumption]. }
      rewrite Hex. reflexivity.
    + assert (Hex : existsb (key_eqb (key_of idx r)) (filter P K) = false).
      { apply not_true_is_false. intros Hc. apply existsb_key_in, filter_In in Hc.
        destruct Hc as [_ Hc]. congruence. }
      rewrite Hex. reflexivity.
Qed.
End Rollup.

Lemma measure_count (rs : list Row) : measure Nat.add 0 (fun _ => 1) rs = length rs.
Proof. unfold measure. induction rs as [|r rs IH]; simpl; [reflexivity | now f_equal]. Qed.

Lemma measure_sum (rs : list Row) :
  measure Z.add 0%Z slack_or_zero rs = series_sum (slack_values rs).
Proof.
  unfold measure. induction rs as [|r rs IH]; simpl; [reflexivity|].
  rewrite IH. unfold slack_or_zero.
  destruct (as_float (slack r)); simpl; lia.
Qed.

Lemma measure_min (rs : list Row) :
  measure min_skipna None (fun r => as_float (slack r)) rs = series_min (slack_values rs).
Proof.
  unfold measure. induction rs as [|r rs IH]; simpl; [reflexivity | now f_equal].
Qed.

Lemma min_skipna_assoc (a b c : option Z) :
  min_skipna a (min_skipna b c) = min_skipna (min_skipna a b) c.
Proof.
  destruct a, b, c; simpl; try reflexivity. now rewrite Z.min_assoc.
Qed.

Lemma min_skipna_comm (a b : option Z) : min_skipna a b = min_skipna b a.
Proof.
  destruct a, b; simpl; try reflexivity. now rewrite Z.min_comm.
Qed.

(** ** Resolution against the index *)

Lemma filter_none {A : Type} (f : A -> bool) (l : list A) :
  (forall x, In x l -> f x = false) -> filter f l = [].
Proof.
  induction l as [|x t IH]; intros H; simpl; [reflexivity|].
  rewrite (H x) by now left. apply IH. intros; apply H; now right.
Qed.

Lemma filter_map_swap {A B : Type} (f : A -> B) (p : B -> bool) (l : list A) :
  filter p (map f l) = map f (filter (fun x => p (f x)) l).
Proof.
  induction l as [|x t IH]; simpl; [reflexivity|].
  destruct (p (f x)); simpl; now rewrite IH.
Qed.

Lemma selects_labels_unique (sl : list indexer) (k k' : list category) :
  forallb is_label sl = true ->
  selects sl k = true -> selects sl k' = true -> k = k'.
Proof.
  revert k k'. induction sl as [|ix sl IH]; intros [|c k] [|c' k']; simpl; try congruence.
  intros Hl H1 H2.
  apply andb_true_iff in Hl, H1, H2.
  destruct Hl as [Hix Hl], H1 as [Hc H1], H2 as [Hc' H2].
  destruct ix as [|v]; [discriminate|]. unfold selects_level in Hc, Hc'.
  apply category_eqb_eq in Hc, Hc'. subst.
  f_equal. now apply IH.
Qed.

Lemma skipn_cons_nth {A : Type} (d : A) (n : nat) (l : list A) (c : A) (rest : list A) :
  skipn n l = c :: rest -> nth n l d = c /\ skipn (S n) l = rest.
Proof.
  revert l. induction n as [|n IH]; intros [|x l]; simpl; try congruence.
  - intros H. injection H as -> ->. split; reflexivity.
  - intros H. now apply IH.
Qed.

Lemma labels_known_of_selected (agg : list Group) (g : Group) (sl : list indexer) (lvl : nat) :
  In g agg -> selects sl (skipn lvl (gkey g)) = true -> labels_known agg lvl sl = true.
Proof.
  intros Hin. revert lvl. induction sl as [|ix sl IH]; intros lvl; simpl; [reflexivity|].
  destruct (skipn lvl (gkey g)) as [|c rest] eqn:E; [discriminate|].
  intros H. apply andb_true_iff in H. destruct H as [Hc Hrest].
  apply (skipn_cons_nth (A := category) None) in E. destruct E as [Hn Hs].
  apply andb_true_iff. split.
  - destruct ix as [|v]; [reflexivity|]. unfold selects_level in Hc.
    apply existsb_exists. exists g. split; [assumption|].
    cbv beta. rewrite Hn. exact Hc.
  - apply IH. now rewrite Hs.
Qed.

Lemma in_agg_of (idx : list nat) (rs : list Row) (r : Row) :
  In r rs -> In (aggregate idx rs (key_of idx r)) (agg_of idx rs).
Proof.
  intros Hin. apply in_map, group_keys_in. now exists r.
Qed.

Lemma aggregate_stats (idx : list nat) (rs : list Row) (k : list category) :
  (g_rows (aggregate idx rs k), g_min_slack (aggregate idx rs k),
   g_sum_slack (aggregate idx rs k)) = machine_stats rs (members idx k rs).
Proof. unfold aggregate, machine_stats, slack_values; simpl. now rewrite length_map. Qed.

Lemma wrap64_add_l (a b : Z) : wrap64 (wrap64 a + b) = wrap64 (a + b).
Proof.
  unfold wrap64. f_equal.
  replace ((a + 2 ^ 63) mod 2 ^ 64 - 2 ^ 63 + b + 2 ^ 63)%Z
    with ((a + 2 ^ 63) mod 2 ^ 64 + b)%Z by lia.
  rewrite Z.add_mod_idemp_l by lia. f_equal. lia.
Qed.

Lemma wrap64_add_r (a b : Z) : wrap64 (a + wrap64 b) = wrap64 (a + b).
Proof. rewrite Z.add_comm, wrap64_add_l. f_equal. lia. Qed.

Lemma wrap64_sum_of_wrapped (l : list Z) :
  wrap64 (fold_right Z.add 0%Z (map wrap64 l)) = wrap64 (fold_right Z.add 0%Z l).
Proof.
  induction l as [|x l IH]; simpl; [reflexivity|].
  rewrite wrap64_add_l.
  rewrite <- (wrap64_add_r x (fold_right Z.add 0%Z (map wrap64 l))), IH.
  apply wrap64_add_r.
Qed.

(** The sum of the group sums, in the dtype of the groups, is the sum of the
    dtype over all values. *)
Lemma machine_sum_of_groups (b : bool) (l : list Z) :
  machine_sum (match l with [] => true | _ :: _ => b end)
              (fold_right Z.add 0%Z (map (machine_sum b) l))
  = machine_sum b (fold_right Z.add 0%Z l).
Proof.
  destruct b.
  - assert (E : match l with [] => true | _ :: _ => true end = true) by now destruct l.
    rewrite E. cbn [machine_sum]. apply wrap64_sum_of_wrapped.
  - destruct l as [|x l]; [reflexivity|].
    cbn [machine_sum]. f_equal. now rewrite map_id.
Qed.

Lemma frame_stats (idx : list nat) (rs : list Row) (P : list category -> bool) :
  let gs := filter (fun g => P (gkey g)) (agg_of idx rs) in
  (list_sum (map g_rows gs), series_min (map g_min_slack gs),
   machine_sum (forallb g_int64 gs) (fold_right Z.add 0%Z (map g_sum_slack gs)))
  = machine_stats rs (filter (fun r => P (key_of idx r)) rs).
Proof.
  assert (Hcov : forall r, In r rs -> P (key_of idx r) = true ->
                           In (key_of idx r) (group_keys idx rs)).
  { intros r Hr _. apply group_keys_in. now exists r. }
  pose proof (group_keys_NoDup idx rs) as Hnd.
  cbv zeta. unfold agg_of. rewrite filter_map_swap. simpl gkey.
  rewrite !map_map. unfold machine_stats. f_equal; [f_equal|].
  - rewrite <- measure_count.
    rewrite <- (rollup Nat.add 0 (fun _ => 1) Nat.add_assoc Nat.add_comm Nat.add_0_l
                  idx P _ rs Hnd Hcov).
    unfold list_sum. f_equal. apply map_ext. intros k. simpl.
    now rewrite length_map, measure_count.
  - rewrite <- measure_min.
    rewrite <- (rollup min_skipna None _ min_skipna_assoc min_skipna_comm
                  (fun a => eq_refl) idx P _ rs Hnd Hcov).
    unfold series_min. f_equal. apply map_ext. intros k. simpl.
    now rewrite measure_min.
  - rewrite <- measure_sum.
    rewrite <- (rollup Z.add 0%Z slack_or_zero Z.add_assoc Z.add_comm Z.add_0_l
                  idx P _ rs Hnd Hcov).
    set (K := filter P (group_keys idx rs)).
    rewrite <- (machine_sum_of_groups (int64_column rs)
                  (map (fun k => measure Z.add 0%Z slack_or_zero (members idx k rs)) K)).
    rewrite map_map. f_equal.
    + unfold aggregate. cbn [g_int64].
      induction K as [|k K' IHK]; [reflexivity|]. cbn [map forallb].
      destruct (int64_column rs); [|reflexivity].
      cbn [andb]. rewrite IHK. now destruct K'.
    + f_equal. apply map_ext. intros k. unfold aggregate. cbn [g_sum_slack].
      now rewrite measure_sum.
Qed.

Lemma machine_stats_nil (rs : list Row) : machine_stats rs [] = (0, None, 0%Z).
Proof. unfold machine_stats. simpl. now destruct (int64_column rs). Qed.

Lemma labels_are_no_column_lookup (sl : list indexer) :
  forallb is_label sl = true -> column_lookup sl = false.
Proof. destruct sl as [|[|v] sl]; simpl; [reflexivity | discriminate | reflexivity]. Qed.

(** The central fact: whatever path [agg.loc] takes, the entry of a
    combination is the statistics of the rows it picks. *)
Lemma resolve_spec (idx : list nat) (rs : list Row) (combo : list string) :
  resolve (agg_of idx rs) combo = Ok (machine_stats rs (picked idx combo rs)).
Proof.
  unfold resolve, loc, picked, matches. set (sl := slicer_of combo).
  destruct (forallb is_label sl) eqn:Hlab.
  - rewrite (labels_are_no_column_lookup sl Hlab).
    destruct (find _ (agg_of idx rs)) as [g|] eqn:Hf; simpl.
    + apply find_some in Hf. destruct Hf as [Hin Hsel].
      apply in_map_iff in Hin. destruct Hin as [k [<- Hk]].
      simpl in Hsel. rewrite aggregate_stats.
      assert (Hsame : members idx k rs
                      = filter (fun r => selects sl (key_of idx r)) rs).
      { unfold members. apply filter_ext_in. intros r Hr.
        destruct (selects sl (key_of idx r)) eqn:E.
        - apply key_eqb_eq. eapply selects_labels_unique; eassumption.
        - apply key_eqb_neq. intros Heq. rewrite Heq in E. congruence. }
      now rewrite Hsame.
    + rewrite filter_none; [now rewrite machine_stats_nil|].
      intros r Hr. apply (find_none _ _ Hf (aggregate idx rs (key_of idx r))).
      now apply in_agg_of.
  - destruct (column_lookup sl); [now rewrite machine_stats_nil|].
    destruct (labels_known (agg_of idx rs) 0 sl) eqn:Hk; simpl.
    + apply (f_equal Ok). apply (frame_stats idx rs (selects sl)).
    + rewrite filter_none; [now rewrite machine_stats_nil|].
      intros r Hr. apply not_true_is_false. intros Hsel.
      rewrite (labels_known_of_selected _ (aggregate idx rs (key_of idx r)) sl 0) in Hk.
      * discriminate.
      * now apply in_agg_of.
      * exact Hsel.
Qed.

(** ** Columns and dictionaries *)

Lemma index_of_in (c : string) (cols : list string) :
  In c cols <-> exists i, index_of c cols = Some i.
Proof.
  induction cols as [|h t IH]; simpl.
  - split; [tauto | intros [i H]; discriminate].
  - destruct (String.eqb h c) eqn:E.
    + apply String.eqb_eq in E. split; [eauto | intros _; now left].
    + apply String.eqb_neq in E. rewrite IH. split.
      * intros [?|[i Hi]]; [contradiction|]. rewrite Hi. simpl. eauto.
      * intros [i Hi]. right. destruct (index_of c t); [eauto | discriminate].
Qed.

Lemma existsb_eqb_in (c : string) (l : list string) :
  existsb (String.eqb c) l = true <-> In c l.
Proof.
  rewrite existsb_exists. split.
  - intros [x [Hin E]]. apply String.eqb_eq in E. now subst.
  - intros Hin. exists c. split; [assumption | apply String.eqb_refl].
Qed.

Lemma unique_labels_NoDup (l : list string) : unique_labels l = true <-> NoDup l.
Proof.
  induction l as [|x t IH]; simpl.
  - split; [constructor | reflexivity].
  - rewrite andb_true_iff, negb_true_iff, IH. split.
    + intros [Hx Ht]. constructor; [|assumption].
      intros Hin. apply existsb_eqb_in in Hin. congruence.
    + intros H. inversion H as [|? ? Hx Ht]; subst. split; [|assumption].
      apply not_true_is_false. intros Hc. now apply existsb_eqb_in in Hc.
Qed.

Lemma dict_set_fresh {V : Type} (d : dict V) (k : string) (v : V) :
  ~ In k (map fst d) -> dict_set d k v = d ++ [(k, v)].
Proof.
  induction d as [|[k' v'] t IH]; simpl; intros Hn; [reflexivity|].
  destruct (String.eqb k' k) eqn:E.
  - apply String.eqb_eq in E. tauto.
  - rewrite IH by tauto. reflexivity.
Qed.

Lemma dict_zip_combine {V : Type} (keys : list string) (values : list V) :
  NoDup keys -> dict_zip keys values = combine keys values.
Proof.
  unfold dict_zip. intros Hnd.
  assert (H : forall d, (forall k, In k keys -> ~ In k (map fst d)) ->
            fold_left (fun d kv => dict_set d (fst kv) (snd kv)) (combine keys values) d
            = d ++ combine keys values).
  { revert values. induction Hnd as [|k keys Hnin Hnd IH]; intros values d Hd.
    - simpl. now rewrite app_nil_r.
    - destruct values as [|v values]; simpl; [now rewrite app_nil_r|].
      rewrite dict_set_fresh by (apply Hd; now left).
      rewrite IH.
      + now rewrite <- app_assoc.
      + intros k' Hk'. rewrite map_app, in_app_iff. simpl.
        intros [Hc|[Hc|[]]]; [apply (Hd k'); [now right | assumption]|].
        subst. contradiction. }
  apply (H []). intros k _ [].
Qed.

Lemma dict_get_combine {V : Type} (keys : list string) (values : list V) :
  NoDup keys -> length values = length keys ->
  map (dict_get (combine keys values)) keys = map Some values.
Proof.
  intros Hnd. revert values.
  induction Hnd as [|k keys Hnin Hnd IH]; intros [|v values]; simpl; try discriminate.
  - reflexivity.
  - intros Hlen. rewrite String.eqb_refl. f_equal.
    rewrite <- IH by lia. apply map_ext_in. intros c Hc.
    destruct (String.eqb k c) eqn:E; [|reflexivity].
    apply String.eqb_eq in E. subst. contradiction.
Qed.

Lemma product_length {A : Type} (lists : list (list A)) (t : list A) :
  In t (product lists) -> length t = length lists.
Proof.
  revert t. induction lists as [|l rest IH]; simpl; intros t.
  - intros [<-|[]]. reflexivity.
  - rewrite in_flat_map. intros [x [_ Ht]]. apply in_map_iff in Ht.
    destruct Ht as [t' [<- Ht']]. simpl. f_equal. now apply IH.
Qed.

Lemma mapM_ok {A B : Type} (f : A -> result B) (g : A -> B) (l : list A) :
  (forall x, In x l -> f x = Ok (g x)) -> mapM f l = Ok (map g l).
Proof.
  induction l as [|x t IH]; intros H; simpl; [reflexivity|].
  rewrite (H x) by now left. simpl. rewrite IH by (intros; apply H; now right).
  reflexivity.
Qed.

Lemma mapM_raise {A B : Type} (f : A -> result B) (e : exception) (l : list A) :
  (forall x, In x l -> (exists b, f x = Ok b) \/ f x = Raise e) ->
  (exists x, In x l /\ f x = Raise e) ->
  mapM f l = Raise e.
Proof.
  induction l as [|x t IH]; intros Hall [y [Hy Hfy]]; [destruct Hy|].
  simpl. destruct (Hall x (or_introl eq_refl)) as [[b Hb]|Hr].
  - rewrite Hb. simpl. destruct Hy as [->|Hy]; [congruence|].
    rewrite IH; [reflexivity | intros; apply Hall; now right | eauto].
  - now rewrite Hr.
Qed.

Lemma mapM_inv {A B : Type} (f : A -> result B) (l : list A) (bs : list B) :
  mapM f l = Ok bs -> forall x, In x l -> exists b, f x = Ok b.
Proof.
  revert bs. induction l as [|x t IH]; intros bs H y Hy; [destruct Hy|].
  simpl in H. destruct (f x) as [b|e] eqn:Hfx; [|discriminate].
  simpl in H. destruct (mapM f t) as [bs'|e] eqn:Ht; [|discriminate].
  destruct Hy as [<-|Hy]; [eauto | eapply IH; eauto].
Qed.

Lemma value_list_ok (df : DataFrame) (c : string) :
  In c (columns df) ->
  value_list df c = Ok (domain (match index_of c (columns df) with
                                | Some i => i | None => 0 end) (rows df)).
Proof.
  intros Hin. apply index_of_in in Hin. destruct Hin as [i Hi].
  unfold value_list, get_column. rewrite Hi. reflexivity.
Qed.

Lemma value_list_missing (df : DataFrame) (c : string) :
  ~ In c (columns df) -> value_list df c = Raise KeyError.
Proof.
  intros Hn. unfold value_list, get_column.
  destruct (index_of c (columns df)) as [i|] eqn:Hi; [|reflexivity].
  exfalso. apply Hn, index_of_in. eauto.
Qed.

Lemma value_lists_ok (df : DataFrame) (cols : list string) :
  (forall c, In c cols -> In c (columns df)) ->
  mapM (value_list df) cols
  = Ok (map (fun i => domain i (rows df)) (indices_of df cols)).
Proof.
  intros H. unfold indices_of. rewrite map_map.
  apply mapM_ok. intros c Hc. now apply value_list_ok, H.
Qed.

Lemma column_indices_ok (df : DataFrame) (cols : list string) :
  (forall c, In c cols -> In c (columns df)) ->
  column_indices df cols = Ok (indices_of df cols).
Proof.
  intros H. unfold column_indices, indices_of. apply mapM_ok.
  intros c Hc. apply H, index_of_in in Hc. destruct Hc as [i ->]. reflexivity.
Qed.

(** ** The loop *)

Lemma filter_and {A : Type} (p q : A -> bool) (l : list A) :
  filter q (filter p l) = filter (fun x => p x && q x) l.
Proof.
  induction l as [|x t IH]; simpl; [reflexivity|].
  destruct (p x); simpl; [destruct (q x)|]; now rewrite IH.
Qed.

Lemma filter_all {A : Type} (f : A -> bool) (l : list A) :
  (forall x, f x = true) -> filter f l = l.
Proof.
  intros H. induction l as [|x t IH]; simpl; [reflexivity|].
  now rewrite H, IH.
Qed.

Lemma filter_subset_combine (cs : list string) (hs : bool) (cols combo : list string) :
  (forall c, In c cols -> In c cs) ->
  length combo = length cols ->
  forall rs,
    filter_subset (mkDF cs hs rs) (combine cols combo)
    = Ok (subset_of (mkDF cs hs rs) (indices_of (mkDF cs hs rs) cols) combo).
Proof.
  revert combo. induction cols as [|c cols IH]; intros [|v combo] Hin Hlen rs;
    simpl in Hlen; try discriminate.
  - unfold subset_of, matches. simpl. now rewrite filter_all.
  - simpl combine. cbn [filter_subset].
    assert (Hc : In c cs) by (apply Hin; now left).
    apply index_of_in in Hc. destruct Hc as [i Hi].
    assert (Hrest : forall c', In c' cols -> In c' cs) by (intros; apply Hin; now right).
    unfold subset_of, matches, indices_of in *. cbn [columns has_slack rows] in *.
    cbn [map slicer_of key_of]. rewrite Hi.
    destruct (String.eqb v wildcard) eqn:Ev; cbn [negb].
    + rewrite IH by (assumption || lia). f_equal.
    + rewrite IH by (assumption || lia). cbn [rows]. rewrite filter_and.
      do 2 f_equal. apply filter_ext. intros r. cbn [selects selects_level].
      now rewrite category_eqb_sym.
Qed.

Lemma loop_body_spec (df : DataFrame) (cols : list string) (outdir : string)
    (flag : bool) (acc : loop_state) (combo : list string) :
  NoDup cols ->
  (forall c, In c cols -> In c (columns df)) ->
  length combo = length cols ->
  loop_body df (agg_of (indices_of df cols) (rows df)) cols outdir flag acc combo
  = Ok (fst acc ++ [entry_of (indices_of df cols) (rows df) combo],
        export_step df (indices_of df cols) cols outdir flag (snd acc) combo).
Proof.
  intros Hnd Hin Hlen. unfold loop_body.
  rewrite dict_zip_combine by assumption.
  rewrite resolve_spec. cbn [bind].
  assert (He : summary_entry cols (combine cols combo)
                 (machine_stats (rows df) (picked (indices_of df cols) combo (rows df)))
               = entry_of (indices_of df cols) (rows df) combo).
  { unfold summary_entry, entry_of, record_of, machine_stats. cbn [fst snd].
    now rewrite dict_get_combine. }
  rewrite He. unfold export_step.
  change (fst (fst (machine_stats ?a ?l))) with (length l).
  destruct (flag && (0 <? length (picked (indices_of df cols) combo (rows df)))%nat);
    [|reflexivity].
  destruct df as [cs hs rs]. cbn [columns] in Hin.
  rewrite filter_subset_combine by assumption.
  reflexivity.
Qed.

Lemma for_each_spec (df : DataFrame) (cols : list string) (outdir : string)
    (flag : bool) (combos : list (list string)) :
  NoDup cols ->
  (forall c, In c cols -> In c (columns df)) ->
  (forall combo, In combo combos -> length combo = length cols) ->
  forall acc,
    for_each (loop_body df (agg_of (indices_of df cols) (rows df)) cols outdir flag)
             acc combos
    = Ok (fst acc ++ map (entry_of (indices_of df cols) (rows df)) combos,
          fold_left (export_step df (indices_of df cols) cols outdir flag)
                    combos (snd acc)).
Proof.
  intros Hnd Hin. induction combos as [|combo combos IH]; intros Hlen acc.
  - simpl. rewrite app_nil_r. now destruct acc.
  - cbn [for_each]. rewrite loop_body_spec by (auto; apply Hlen; now left).
    cbn [bind]. rewrite IH by (intros; apply Hlen; now right).
    cbn [fst snd map fold_left]. now rewrite <- app_assoc.
Qed.

(** ** The run as a whole *)

Lemma indices_of_table_after (df : DataFrame) (cols : list string) :
  indices_of (table_after df) cols = indices_of df cols.
Proof. reflexivity. Qed.

Lemma combinations_length (df : DataFrame) (cols : list string) (combo : list string) :
  In combo (combinations df cols) -> length combo = length cols.
Proof.
  intros H. apply product_length in H.
  unfold indices_of in H. now rewrite !length_map in H.
Qed.

Lemma accepted_iff (df : DataFrame) (cols : list string) :
  accepted df cols = true <->
  (forall c, In c cols -> In c (columns df)) /\ has_slack df = true
  /\ cols <> [] /\ NoDup (cols ++ stat_columns).
Proof.
  unfold accepted. rewrite !andb_true_iff, forallb_forall, unique_labels_NoDup.
  assert (Hc : forall c, existsb (String.eqb c) (columns df) = true <-> In c (columns df))
    by (intros; apply existsb_eqb_in).
  assert (Hn : negb (match cols with [] => true | _ => false end) = true <-> cols <> []).
  { destruct cols; simpl; split; congruence. }
  rewrite Hn. split.
  - intros [[[H1 H2] H3] H4]. repeat split; auto. intros c Hin. now apply Hc, H1.
  - intros [H1 [H2 [H3 H4]]]. repeat split; auto. intros c Hin. now apply Hc, H1.
Qed.

(** Every accepted call returns, and what it returns is [outcome_of]. *)
Lemma export_accepted (fs : filesystem) (df : DataFrame) (cols : list string)
    (outdir summary_csv : string) (flag : bool) :
  accepted df cols = true ->
  export_combinations_and_summary fs df cols outdir summary_csv flag
  = Ok (outcome_of fs df cols outdir summary_csv flag).
Proof.
  intros Hacc. apply accepted_iff in Hacc.
  destruct Hacc as [Hin [Hslack [Hne Hnd]]].
  assert (Hnd' : NoDup cols) by (eapply NoDup_app_remove_r; eassumption).
  unfold export_combinations_and_summary.
  rewrite value_lists_ok by assumption. cbn [bind].
  unfold coerce_slack. rewrite Hslack. cbn [bind].
  fold (coerced (rows df)). fold (table_after df).
  unfold groupby_agg. destruct cols as [|c0 cols0] eqn:Ecols; [congruence|].
  rewrite <- Ecols in *.
  rewrite (column_indices_ok (table_after df)) by assumption. cbn [bind].
  fold (agg_of (indices_of (table_after df) cols) (rows (table_after df))).
  fold (combinations df cols).
  rewrite for_each_spec; try assumption.
  - cbn [bind fst snd app]. unfold sort_values. cbn [s_columns s_body].
    apply unique_labels_NoDup in Hnd. rewrite Hnd. cbn [bind].
    reflexivity.
  - intros combo Hc. now apply combinations_length in Hc.
Qed.

Lemma bind_ok {A B : Type} (m : result A) (k : A -> result B) (b : B) :
  bind m k = Ok b -> exists a, m = Ok a /\ k a = Ok b.
Proof. destruct m as [a|e]; simpl; [eauto | discriminate]. Qed.

(** A call that returns was accepted. *)
Lemma export_ok_accepted (fs : filesystem) (df : DataFrame) (cols : list string)
    (outdir summary_csv : string) (flag : bool) (o : outcome) :
  export_combinations_and_summary fs df cols outdir summary_csv flag = Ok o ->
  accepted df cols = true.
Proof.
  unfold export_combinations_and_summary. intros H.
  apply bind_ok in H. destruct H as [vls [Hv H]].
  apply bind_ok in H. destruct H as [df' [Hc H]].
  apply bind_ok in H. destruct H as [agg [Hg H]].
  apply bind_ok in H. destruct H as [[srows fs'] [Hl H]].
  apply bind_ok in H. destruct H as [summary [Hs _]].
  apply accepted_iff. repeat split.
  - intros c Hin. destruct (mapM_inv _ _ _ Hv c Hin) as [b Hb].
    destruct (in_dec string_dec c (columns df)) as [?|Hn]; [assumption|].
    rewrite (value_list_missing df c Hn) in Hb. discriminate.
  - unfold coerce_slack in Hc. destruct (has_slack df); [reflexivity | discriminate].
  - intros ->. discriminate.
  - unfold sort_values in Hs. cbn [s_columns] in Hs.
    apply unique_labels_NoDup.
    destruct (unique_labels (cols ++ stat_columns)); [reflexivity | discriminate].
Qed.

Lemma export_ok_outcome (fs : filesystem) (df : DataFrame) (cols : list string)
    (outdir summary_csv : string) (flag : bool) (o : outcome) :
  export_combinations_and_summary fs df cols outdir summary_csv flag = Ok o ->
  o = outcome_of fs df cols outdir summary_csv flag.
Proof.
  intros H. pose proof (export_ok_accepted _ _ _ _ _ _ _ H) as Hacc.
  rewrite (export_accepted fs df cols outdir summary_csv flag Hacc) in H.
  now injection H.
Qed.

(** ** The coercion leaves the category cells alone *)

Lemma key_of_coerced (idx : list nat) (r : Row) :
  key_of idx (mkRow (cells r) (to_numeric (slack r))) = key_of idx r.
Proof. reflexivity. Qed.

Lemma filter_matches_coerced (idx : list nat) (combo : list string) (rs : list Row) :
  filter (matches idx combo) (coerced rs) = coerced (filter (matches idx combo) rs).
Proof.
  unfold coerced. rewrite filter_map_swap. f_equal.
Qed.

Lemma coerced_length (rs : list Row) : length (coerced rs) = length rs.
Proof. apply length_map. Qed.

Lemma to_numeric_idempotent (v : scalar) : to_numeric (to_numeric v) = to_numeric v.
Proof. destruct v as [|s|x]; simpl; try reflexivity. now destruct (parse_number s). Qed.

Lemma coerced_idempotent (rs : list Row) : coerced (coerced rs) = coerced rs.
Proof.
  unfold coerced. rewrite map_map. apply map_ext. intros r. simpl.
  now rewrite to_numeric_idempotent.
Qed.

Lemma cells_coerced (i : nat) (rs : list Row) :
  map (cell i) (coerced rs) = map (cell i) rs.
Proof. unfold coerced. rewrite map_map. reflexivity. Qed.

Lemma combinations_table_after (df : DataFrame) (cols : list string) :
  combinations (table_after df) cols = combinations df cols.
Proof.
  unfold combinations. rewrite indices_of_table_after. f_equal.
  apply map_ext. intros i. unfold domain. cbn [table_after rows].
  now rewrite cells_coerced.
Qed.

Lemma summary_of_table_after (df : DataFrame) (cols : list string) :
  summary_of (table_after df) cols = summary_of df cols.
Proof.
  unfold summary_of. rewrite combinations_table_after, indices_of_table_after.
  cbn [table_after rows]. now rewrite coerced_idempotent.
Qed.

Lemma accepted_table_after (df : DataFrame) (cols : list string) :
  accepted df cols = true -> accepted (table_after df) cols = true.
Proof.
  unfold accepted. cbn [table_after columns has_slack].
  rewrite !andb_true_iff. intros [[[H1 _] H3] H4]. auto.
Qed.

(** ** Orders *)

Lemma category_compare_antisym (a b : category) :
  category_compare b a = CompOpp (category_compare a b).
Proof.
  destruct a, b; simpl; try reflexivity. apply String.compare_antisym.
Qed.

Lemma key_compare_antisym (a b : list category) :
  key_compare b a = CompOpp (key_compare a b).
Proof.
  revert b. induction a as [|x a IH]; intros [|y b]; simpl; try reflexivity.
  rewrite (category_compare_antisym x y).
  destruct (category_compare x y); simpl; auto.
Qed.

Lemma key_leb_total (a b : list category) : key_leb a b = true \/ key_leb b a = true.
Proof.
  unfold key_leb. rewrite (key_compare_antisym a b).
  destruct (key_compare a b); simpl; auto.
Qed.

Lemma key_compare_some (a b : list string) :
  key_compare (map Some a) (map Some b) = tuple_compare a b.
Proof.
  revert b. induction a as [|x a IH]; intros [|y b]; simpl; try reflexivity.
  now rewrite IH.
Qed.

Lemma tuple_leb_total (a b : list string) : tuple_leb a b = true \/ tuple_leb b a = true.
Proof.
  unfold tuple_leb. rewrite <- !key_compare_some.
  apply (key_leb_total (map Some a) (map Some b)).
Qed.

Lemma isort_map {A B : Type} (f : A -> B) (leA : A -> A -> bool) (leB : B -> B -> bool)
    (l : list A) :
  (forall a b, leB (f a) (f b) = leA a b) ->
  isort leB (map f l) = map f (isort leA l).
Proof.
  intros H. induction l as [|x t IH]; simpl; [reflexivity|].
  rewrite IH. generalize (isort leA t). intros s.
  induction s as [|y s IHs]; simpl; [reflexivity|].
  rewrite H. destruct (leA x y); simpl; [reflexivity | now rewrite IHs].
Qed.

(** The summary is the list of entries of the combinations taken in sorted
    order. *)
Lemma summary_body_sorted_combos (df : DataFrame) (cols : list string) :
  s_body (summary_of df cols)
  = map (entry_of (indices_of df cols) (coerced (rows df)))
        (isort tuple_leb (combinations df cols)).
Proof.
  unfold summary_of. cbn [s_body]. apply isort_map.
  intros a b. unfold row_leb, key_leb, tuple_leb, entry_of, record_of. cbn [s_cats].
  now rewrite key_compare_some.
Qed.

Lemma summary_body_in (df : DataFrame) (cols : list string) (row : SummaryRow) :
  In row (s_body (summary_of df cols)) <->
  exists combo, In combo (combinations df cols)
                /\ row = entry_of (indices_of df cols) (coerced (rows df)) combo.
Proof.
  rewrite summary_body_sorted_combos, in_map_iff.
  split; intros [combo [H1 H2]]; exists combo.
  - apply isort_in in H2. split; [assumption | now symmetry].
  - split; [now symmetry | now apply isort_in].
Qed.

Lemma map_Some_inj {A : Type} (a b : list A) : map Some a = map Some b -> a = b.
Proof.
  revert b. induction a as [|x a IH]; intros [|y b]; simpl; try congruence.
  intros H. injection H as -> H. f_equal. now apply IH.
Qed.

(** ** Missing columns *)

Lemma columns_present_or_not (df : DataFrame) (cols : list string) :
  (forall c, In c cols -> In c (columns df))
  \/ (exists c, In c cols /\ ~ In c (columns df)).
Proof.
  induction cols as [|c cols IH].
  - left. intros c [].
  - destruct (in_dec string_dec c (columns df)) as [Hc|Hc].
    + destruct IH as [IH|[c' [H1 H2]]].
      * left. intros c' [<-|H]; auto.
      * right. exists c'. split; [now right | assumption].
    + right. exists c. split; [now left | assumption].
Qed.

Lemma value_lists_missing (df : DataFrame) (cols : list string) :
  (exists c, In c cols /\ ~ In c (columns df)) ->
  mapM (value_list df) cols = Raise KeyError.
Proof.
  intros [c [Hin Hn]]. apply mapM_raise.
  - intros x _. destruct (in_dec string_dec x (columns df)) as [Hx|Hx].
    + left. rewrite value_list_ok by assumption. eauto.
    + right. now apply value_list_missing.
  - exists c. split; [assumption | now apply value_list_missing].
Qed.

Lemma missing_column_raises (fs : filesystem) (df : DataFrame)
    (cols : list string) (outdir summary_csv : string) (flag : bool) :
  has_slack df = false \/ (exists c, In c cols /\ ~ In c (columns df)) ->
  export_combinations_and_summary fs df cols outdir summary_csv flag = Raise KeyError.
Proof.
  intros H. unfold export_combinations_and_summary.
  destruct (columns_present_or_not df cols) as [Hall|Hmiss].
  - destruct H as [Hs|[c [Hc Hn]]]; [|exfalso; auto].
    rewrite value_lists_ok by assumption. cbn [bind].
    unfold coerce_slack. now rewrite Hs.
  - now rewrite value_lists_missing.
Qed.

(** C5. When the table lacks a column that the call needs, be it a named
    category field or "slack", the call fails: the column lookup raises
    KeyError (the SchemaError of the specification), nothing catches it, and
    no summary is produced. *)
Theorem missing_field_is_fatal (fs : filesystem) (df : DataFrame)
    (cols : list string) (outdir summary_csv : string) (flag : bool) (c : string) :
  c = "slack"%string \/ In c cols ->
  has_column df c = false ->
  export_combinations_and_summary fs df cols outdir summary_csv flag = Raise KeyError.
Proof.
  intros Hc Hmiss. apply missing_column_raises. unfold has_column in Hmiss.
  destruct (String.eqb c "slack") eqn:E.
  - now left.
  - apply String.eqb_neq in E. destruct Hc as [Hc|Hc]; [contradiction|].
    right. exists c. split; [assumption|].
    intros Hin. apply existsb_eqb_in in Hin. congruence.
Qed.

Lemma missing_field_is_fatal_witness :
  export_combinations_and_summary []
    (mkDF ["endpoint"%string] true [mkRow [Some "E1"%string] (Num 1)])
    ["endpoint"; "corner"]%string "out" "summary.csv" true = Raise KeyError.
Proof.
  apply (missing_field_is_fatal _ _ _ _ _ _ "corner"%string).
  - right. right. left. reflexivity.
  - reflexivity.
Defined.

(** ** The returned table *)

(** C7. The returned summary has the category fields in their given order
    followed by rows, min_slack and sum_slack as its columns, and its rows
    are in ascending lexicographic order of their category tuples, compared
    field by field in the given order. *)
Theorem summary_columns_and_order (fs : filesystem) (df : DataFrame)
    (cols : list string) (outdir summary_csv : string) (flag : bool) (o : outcome) :
  export_combinations_and_summary fs df cols outdir summary_csv flag = Ok o ->
  s_columns (summary_df o) = cols ++ ["rows"; "min_slack"; "sum_slack"]%string
  /\ exists tuples,
       map s_cats (s_body (summary_df o)) = map (map Some) tuples
       /\ Forall (fun t => length t = length cols) tuples
       /\ Sorted (fun a b => tuple_leb a b = true) tuples.
Proof.
  intros H. apply export_ok_outcome in H. subst o.
  cbn [outcome_of summary_df]. split; [reflexivity|].
  exists (isort tuple_leb (combinations df cols)). repeat split.
  - rewrite summary_body_sorted_combos, map_map. reflexivity.
  - apply Forall_forall. intros t Ht. apply isort_in in Ht.
    now apply combinations_length in Ht.
  - apply isort_sorted, tuple_leb_total.
Qed.

Lemma summary_columns_and_order_witness :
  s_columns (summary_of example_df example_cols)
  = example_cols ++ ["rows"; "min_slack"; "sum_slack"]%string
  /\ exists tuples,
       map s_cats (s_body (summary_of example_df example_cols)) = map (map Some) tuples
       /\ Forall (fun t => length t = length example_cols) tuples
       /\ Sorted (fun a b => tuple_leb a b = true) tuples.
Proof.
  apply (summary_columns_and_order [] example_df example_cols "out" "summary.csv" true
           (outcome_of [] example_df example_cols "out" "summary.csv" true)).
  vm_compute. reflexivity.
Defined.

(** ** The caller's table *)

(** C8. After the call every category column of the table is what it was:
    same header, same cells in every row, hence the same column under every
    name; only the cells of "slack" changed, each to its numeric coercion. *)
Theorem only_slack_is_coerced (fs : filesystem) (df : DataFrame)
    (cols : list string) (outdir summary_csv : string) (flag : bool) (o : outcome) :
  export_combinations_and_summary fs df cols outdir summary_csv flag = Ok o ->
  columns (df_after o) = columns df
  /\ map cells (rows (df_after o)) = map cells (rows df)
  /\ (forall c, get_column (df_after o) c = get_column df c)
  /\ map slack (rows (df_after o)) = map to_numeric (map slack (rows df)).
Proof.
  intros H. apply export_ok_outcome in H. subst o.
  unfold outcome_of, table_after, coerced. cbn [df_after columns rows].
  repeat split.
  - rewrite map_map. reflexivity.
  - intros c. unfold get_column. cbn [columns rows].
    destruct (index_of c (columns df)); [|reflexivity].
    now rewrite map_map.
  - rewrite !map_map. reflexivity.
Qed.

Lemma only_slack_is_coerced_witness :
  let df := mkDF ["endpoint"%string] true
              [mkRow [Some "E1"%string] (Str "12"); mkRow [None] (Str "n/a")] in
  let o := outcome_of [] df ["endpoint"%string] "out" "summary.csv" true in
  columns (df_after o) = columns df
  /\ map cells (rows (df_after o)) = map cells (rows df)
  /\ (forall c, get_column (df_after o) c = get_column df c)
  /\ map slack (rows (df_after o)) = map to_numeric (map slack (rows df)).
Proof.
  cbv zeta.
  apply (only_slack_is_coerced [] _ ["endpoint"%string] "out" "summary.csv" true).
  vm_compute. reflexivity.
Defined.

(** ** Running again *)

Lemma read_write (p : path) (c : content) (fs : filesystem) :
  read (write p c fs) p = Some c.
Proof.
  unfold write. cbn [read]. unfold path_eqb. now rewrite !String.eqb_refl.
Qed.

(** C6. A second run on the same input gives the same summary output as the
    first, whatever files exist when it starts: the returned table is the
    same and the summary file holds the same content.  This covers the
    caller's table as it was before the first run and as the first run left
    it (slack already coerced). *)
Theorem rerun_gives_same_summary (fs : filesystem) (df : DataFrame)
    (cols : list string) (outdir summary_csv : string) (flag : bool) (o : outcome) :
  export_combinations_and_summary fs df cols outdir summary_csv flag = Ok o ->
  forall fs2 df2, df2 = df \/ df2 = df_after o ->
    exists o2,
      export_combinations_and_summary fs2 df2 cols outdir summary_csv flag = Ok o2
      /\ summary_df o2 = summary_df o
      /\ read (fs_after o2) (summary_path outdir summary_csv)
         = Some (SummaryCsv (summary_df o))
      /\ read (fs_after o) (summary_path outdir summary_csv)
         = Some (SummaryCsv (summary_df o)).
Proof.
  intros H fs2 df2 Hdf.
  pose proof (export_ok_accepted _ _ _ _ _ _ _ H) as Hacc.
  apply export_ok_outcome in H. subst o.
  assert (Hacc2 : accepted df2 cols = true).
  { destruct Hdf as [->| ->]; [assumption | now apply accepted_table_after]. }
  exists (outcome_of fs2 df2 cols outdir summary_csv flag).
  assert (Hsum : summary_of df2 cols = summary_of df cols).
  { destruct Hdf as [->| ->]; [reflexivity | apply summary_of_table_after]. }
  split; [now apply export_accepted|].
  unfold outcome_of. cbn [summary_df fs_after]. rewrite !read_write, Hsum.
  repeat split.
Qed.

Lemma rerun_gives_same_summary_witness :
  let o := outcome_of [] example_df example_cols "out" "summary.csv" true in
  exists o2,
    export_combinations_and_summary (fs_after o) (df_after o) example_cols
      "out" "summary.csv" true = Ok o2
    /\ summary_df o2 = summary_df o
    /\ read (fs_after o2) (summary_path "out" "summary.csv")
       = Some (SummaryCsv (summary_df o))
    /\ read (fs_after o) (summary_path "out" "summary.csv")
       = Some (SummaryCsv (summary_df o)).
Proof.
  cbv zeta.
  apply (rerun_gives_same_summary [] example_df example_cols "out" "summary.csv" true).
  - vm_compute. reflexivity.
  - right. reflexivity.
Defined.

(** ** The rows a lookup picks *)

Lemma picked_coerced (idx : list nat) (combo : list string) (rs : list Row) :
  picked idx combo (coerced rs) = coerced (picked idx combo rs).
Proof.
  unfold picked. destruct (column_lookup (slicer_of combo)); [reflexivity|].
  apply filter_matches_coerced.
Qed.

Lemma slicer_of_concrete (combo : list string) :
  concrete combo = true -> forallb is_label (slicer_of combo) = true.
Proof.
  induction combo as [|v combo IH]; simpl; [reflexivity|].
  intros H. apply andb_true_iff in H. destruct H as [Hv H].
  apply negb_true_iff in Hv. rewrite Hv. simpl. now apply IH.
Qed.

Lemma picked_concrete (idx : list nat) (combo : list string) (rs : list Row) :
  concrete combo = true -> picked idx combo rs = filter (matches idx combo) rs.
Proof.
  intros H. unfold picked.
  now rewrite (labels_are_no_column_lookup _ (slicer_of_concrete combo H)).
Qed.


Lemma picked_positive (idx : list nat) (combo : list string) (rs : list Row) :
  (0 < length (picked idx combo rs))%nat ->
  picked idx combo rs = filter (matches idx combo) rs.
Proof.
  unfold picked. destruct (column_lookup (slicer_of combo)); simpl; [lia | reflexivity].
Qed.

(** ** Concrete combinations *)

Lemma selects_concrete (combo : list string) (k : list category) :
  concrete combo = true ->
  selects (slicer_of combo) k = key_eqb k (map Some combo).
Proof.
  revert k. induction combo as [|v combo IH]; intros [|c k] Hc; simpl; try reflexivity.
  simpl in Hc. apply andb_true_iff in Hc. destruct Hc as [Hv Hc].
  apply negb_true_iff in Hv. rewrite Hv. cbn [selects_level].
  rewrite IH by assumption. f_equal. apply category_eqb_sym.
Qed.

Lemma matches_concrete (idx : list nat) (combo : list string) (r : Row) :
  concrete combo = true -> matches idx combo r = matches_exactly idx combo r.
Proof. intros Hc. unfold matches, matches_exactly. now apply selects_concrete. Qed.

Lemma concrete_row_record (combo : list string) (st : stats) :
  concrete_row (record_of combo st) = concrete combo.
Proof.
  unfold concrete_row, concrete, record_of. cbn [s_cats].
  induction combo as [|v combo IH]; simpl; [reflexivity|].
  now rewrite IH.
Qed.

Lemma index_count_spec (idx : list nat) (rs : list Row) (k : list category) :
  index_count (agg_of idx rs) k = length (members idx k rs).
Proof.
  unfold index_count. destruct (find _ (agg_of idx rs)) as [g|] eqn:Hf.
  - apply find_some in Hf. destruct Hf as [Hin Hk].
    apply in_map_iff in Hin. destruct Hin as [k' [<- _]].
    simpl in Hk. apply key_eqb_eq in Hk. subst k'.
    unfold aggregate. cbn [g_rows]. apply length_map.
  - unfold members. rewrite filter_none; [reflexivity|].
    intros r Hr. apply not_true_is_false. intros Hk.
    pose proof (find_none _ _ Hf _ (in_agg_of idx rs r Hr)) as Hno.
    simpl in Hno. congruence.
Qed.

Lemma groupby_agg_accepted (df : DataFrame) (cols : list string) :
  accepted df cols = true ->
  groupby_agg (table_after df) cols
  = Ok (agg_of (indices_of df cols) (coerced (rows df))).
Proof.
  intros Hacc. apply accepted_iff in Hacc. destruct Hacc as [Hin [_ [Hne _]]].
  unfold groupby_agg. destruct cols as [|c0 cols0] eqn:E; [congruence|].
  rewrite <- E in *.
  now rewrite (column_indices_ok (table_after df)) by assumption.
Qed.

Lemma members_coerced_length (idx : list nat) (k : list category) (rs : list Row) :
  length (members idx k (coerced rs)) = length (members idx k rs).
Proof.
  unfold members, coerced. rewrite filter_map_swap, length_map. reflexivity.
Qed.

(** C1. In the returned summary, every record without a wildcard has a
    row count equal to the number of rows of the input table whose category
    fields are exactly the record's values, and equal to the count that the
    pre-aggregation index holds for that tuple; and every enumerated
    combination has its record in the summary. *)
Theorem concrete_row_count (fs : filesystem) (df : DataFrame)
    (cols : list string) (outdir summary_csv : string) (flag : bool) (o : outcome) :
  export_combinations_and_summary fs df cols outdir summary_csv flag = Ok o ->
  (exists agg,
    groupby_agg (df_after o) cols = Ok agg
    /\ forall row, In row (s_body (summary_df o)) -> concrete_row row = true ->
         s_rows row
         = length (filter (fun r => key_eqb (key_of (indices_of df cols) r) (s_cats row))
                          (rows df))
         /\ s_rows row = index_count agg (s_cats row))
  /\ forall combo, In combo (combinations df cols) ->
       exists row, In row (s_body (summary_df o)) /\ s_cats row = map Some combo.
Proof.
  intros H. pose proof (export_ok_accepted _ _ _ _ _ _ _ H) as Hacc.
  apply export_ok_outcome in H. subst o. cbn [outcome_of df_after summary_df].
  split.
  2:{ intros combo Hc.
      exists (entry_of (indices_of df cols) (coerced (rows df)) combo).
      split; [|reflexivity]. apply summary_body_in. now exists combo. }
  exists (agg_of (indices_of df cols) (coerced (rows df))).
  split; [now apply groupby_agg_accepted|].
  intros row Hin Hc. apply summary_body_in in Hin.
  destruct Hin as [combo [_ ->]]. unfold entry_of in *.
  rewrite concrete_row_record in Hc.
  cbn [record_of s_rows s_cats machine_stats fst snd].
  rewrite index_count_spec, members_coerced_length.
  rewrite picked_concrete, filter_matches_coerced, coerced_length by assumption.
  split; f_equal; apply filter_ext; intros r; now apply matches_concrete.
Qed.

Lemma concrete_row_count_witness :
  exists agg,
    groupby_agg example_df example_cols = Ok agg
    /\ forall row, In row (s_body (summary_of example_df example_cols)) ->
         concrete_row row = true ->
         s_rows row
         = length (filter (fun r => key_eqb (key_of (indices_of example_df example_cols) r)
                                            (s_cats row))
                          (rows example_df))
         /\ s_rows row = index_count agg (s_cats row).
Proof.
  apply (concrete_row_count [] example_df example_cols "out" "summary.csv" false
           (outcome_of [] example_df example_cols "out" "summary.csv" false)).
  vm_compute. reflexivity.
Defined.

(** The table of the specification's example (section 8, item 6), with two
    category fields: the exact record and the record (E2, all) are as the
    specification expects; the record (all, C1) is the fallback (0, missing,
    0), because [agg.loc[(slice(None), "C1")]] asks for a column "C1". *)
Example example_summary_records :
  let body := s_body (summary_of example_df example_cols) in
  In (mkSummaryRow [Some "E1"; Some "C1"]%string 2 (Some (-2)%Z) (-1)%Z) body
  /\ In (mkSummaryRow [Some "E2"; Some "all"]%string 1 (Some 3%Z) 3%Z) body
  /\ In (mkSummaryRow [Some "all"; Some "C1"]%string 0 None 0%Z) body.
Proof. vm_compute. tauto. Qed.

(** ** The all-wildcard combination *)

Lemma in_product {A : Type} (lists : list (list A)) (t : list A) :
  In t (product lists) <-> Forall2 (fun x l => In x l) t lists.
Proof.
  revert t. induction lists as [|l rest IH]; intros t; simpl.
  - split.
    + intros [<-|[]]. constructor.
    + intros H. inversion H. now left.
  - rewrite in_flat_map. split.
    + intros [x [Hx Ht]]. apply in_map_iff in Ht. destruct Ht as [t' [<- Ht']].
      constructor; [assumption | now apply IH].
    + intros H. inversion H as [|x l' t' rest' Hx Ht']; subst.
      exists x. split; [assumption|]. apply in_map. now apply IH.
Qed.

Lemma wildcard_in_domain (i : nat) (rs : list Row) : In wildcard (domain i rs).
Proof. unfold domain. apply in_or_app. right. now left. Qed.




Lemma wrap64_small (z : Z) : (- 2 ^ 63 <= z < 2 ^ 63)%Z -> wrap64 z = z.
Proof. intros H. unfold wrap64. rewrite Z.mod_small; lia. Qed.

Lemma magnitude_nonneg (rs : list Row) : (0 <= magnitude rs)%Z.
Proof. induction rs as [|r rs IH]; simpl; lia. Qed.

Lemma magnitude_filter (f : Row -> bool) (rs : list Row) :
  (magnitude (filter f rs) <= magnitude rs)%Z.
Proof.
  induction rs as [|r rs IH]; simpl; [lia|].
  destruct (f r); simpl; lia.
Qed.

Lemma series_sum_bound (rs : list Row) :
  (Z.abs (series_sum (slack_values rs)) <= magnitude rs)%Z.
Proof.
  rewrite <- measure_sum. unfold measure.
  induction rs as [|r rs IH]; simpl; lia.
Qed.

(** On an exact table the machine sum of any selection of the coerced rows is
    the sum. *)
Lemma machine_sum_exact (df : DataFrame) (f : Row -> bool) (b : bool) :
  exact_slack df = true ->
  machine_sum b (series_sum (slack_values (filter f (coerced (rows df)))))
  = series_sum (slack_values (filter f (coerced (rows df)))).
Proof.
  intros H. unfold exact_slack in H. apply andb_true_iff in H.
  destruct H as [_ H]. apply Z.leb_le in H.
  destruct b; [|reflexivity]. cbn [machine_sum]. apply wrap64_small.
  pose proof (series_sum_bound (filter f (coerced (rows df)))) as Hb.
  pose proof (magnitude_filter f (coerced (rows df))) as Hf.
  assert (H53 : (2 ^ 53 < 2 ^ 63)%Z) by reflexivity.
  lia.
Qed.




(** ** Combinations that select nothing *)

Lemma accepted_loop_facts (df : DataFrame) (cols : list string) :
  accepted df cols = true ->
  NoDup cols /\ (forall c, In c cols -> In c (columns (table_after df))).
Proof.
  intros Hacc. apply accepted_iff in Hacc. destruct Hacc as [Hin [_ [_ Hnd]]].
  split; [eapply NoDup_app_remove_r; eassumption | exact Hin].
Qed.



(** ** Subset files *)

Lemma replace_slash_get (v : string) (n : nat) :
  String.get n (replace_slash v)
  = option_map (fun ch => if Ascii.eqb ch "/"%char then "_"%char else ch) (String.get n v).
Proof.
  revert n. induction v as [|ch v IH]; intros n; simpl; [reflexivity|].
  destruct n as [|n]; simpl; [reflexivity | apply IH].
Qed.

(** C9. With the export flag set, a combination of the enumeration whose row
    count is positive writes one file into the output directory.  Its name is
    the parts "field-value", one per category field in the given order, joined
    with "_" and followed by ".csv"; in each value every "/" has become "_"
    and every other character is kept, so a wildcard field contributes
    "field-all". *)
Theorem subset_file_name (fs : filesystem) (df : DataFrame)
    (cols : list string) (outdir summary_csv : string) (o : outcome) :
  export_combinations_and_summary fs df cols outdir summary_csv true = Ok o ->
  (exists agg,
     groupby_agg (df_after o) cols = Ok agg
     /\ forall combo st acc,
          In combo (combinations df cols) ->
          resolve agg combo = Ok st -> (0 < fst (fst st))%nat ->
          exists summary_rows,
            loop_body (df_after o) agg cols outdir true acc combo
            = Ok (summary_rows,
                  write (mkPath outdir (spec_file_name cols combo))
                        (FrameCsv (subset_of (df_after o) (indices_of df cols) combo))
                        (snd acc)))
  /\ (forall v n,
        String.get n (replace_slash v)
        = option_map (fun ch => if Ascii.eqb ch "/"%char then "_"%char else ch)
                     (String.get n v))
  /\ replace_slash wildcard = "all"%string.
Proof.
  intros H. pose proof (export_ok_accepted _ _ _ _ _ _ _ H) as Hacc.
  apply export_ok_outcome in H. subst o. cbn [outcome_of df_after].
  split; [|split; [apply replace_slash_get | reflexivity]].
  exists (agg_of (indices_of df cols) (coerced (rows df))).
  split; [now apply groupby_agg_accepted|].
  intros combo st acc Hc Hres Hpos.
  destruct (accepted_loop_facts df cols Hacc) as [Hnd Hin].
  pose proof (loop_body_spec (table_after df) cols outdir true acc combo Hnd Hin
                (combinations_length df cols combo Hc)) as Hbody.
  rewrite indices_of_table_after in Hbody.
  change (rows (table_after df)) with (coerced (rows df)) in Hbody.
  rewrite Hbody. eexists. f_equal. f_equal.
  rewrite resolve_spec in Hres. injection Hres as <-.
  unfold machine_stats in Hpos. cbn [fst] in Hpos.
  unfold export_step.
  change (rows (table_after df)) with (coerced (rows df)).
  apply Nat.ltb_lt in Hpos. rewrite Hpos. reflexivity.
Qed.

Lemma subset_file_name_witness :
  exists summary_rows,
    loop_body example3_df (agg_of [0; 1; 2] (rows example3_df)) example3_cols "out" true
      ([], []) ["P1"; "all"; "C1"]%string
    = Ok (summary_rows,
          [(mkPath "out" "path_last-P1_endpoint-all_corner-C1.csv",
            FrameCsv (mkDF example3_cols true
                        [ mkRow [Some "P1"; Some "E1"; Some "C1"]%string (Num 1);
                          mkRow [Some "P1"; Some "E1"; Some "C1"]%string (Num (-2));
                          mkRow [Some "P1"; Some "E2"; Some "C1"]%string (Num 3) ]))]).
Proof.
  assert (Hrun : export_combinations_and_summary [] example3_df example3_cols
                   "out" "summary.csv" true
                 = Ok (outcome_of [] example3_df example3_cols "out" "summary.csv" true))
    by (vm_compute; reflexivity).
  destruct (subset_file_name [] example3_df example3_cols "out" "summary.csv" _ Hrun)
    as [[agg [Hagg Hall]] _].
  assert (Ha : agg = agg_of [0; 1; 2] (rows example3_df)).
  { vm_compute in Hagg. injection Hagg as <-. vm_compute. reflexivity. }
  subst agg.
  apply (Hall ["P1"; "all"; "C1"]%string (3, Some (-2)%Z, 2%Z) ([], [])).
  - apply in_product. repeat constructor; vm_compute; tauto.
  - vm_compute. reflexivity.
  - vm_compute. lia.
Defined.

(** ** Fully concrete combinations *)

Lemma dropna_in (l : list category) (s : string) : In s (dropna l) <-> In (Some s) l.
Proof.
  induction l as [|[x|] t IH]; simpl; [tauto| |].
  - rewrite IH. split; intros [H|H]; auto; left; congruence.
  - rewrite IH. split; [auto | intros [H|H]; [discriminate | assumption]].
Qed.

Lemma unique_in (l : list string) (x : string) : In x (unique l) <-> In x l.
Proof.
  induction l as [|h t IH]; simpl; [tauto|].
  rewrite filter_In, IH, negb_true_iff.
  destruct (String.eqb h x) eqn:E.
  - apply String.eqb_eq in E. subst. split; [tauto | intros _; now left].
  - apply String.eqb_neq in E. split; [tauto|].
    intros [?|?]; [congruence | right; split; [assumption | reflexivity]].
Qed.

Lemma unique_NoDup (l : list string) : NoDup (unique l).
Proof.
  induction l as [|h t IH]; simpl; constructor.
  - rewrite filter_In, negb_true_iff, String.eqb_refl. intros [_ H]. discriminate.
  - now apply NoDup_filter.
Qed.

Lemma concrete_domain (i : nat) (rs : list Row) :
  filter nonwild (domain i rs)
  = filter nonwild (sorted (unique (dropna (map (cell i) rs)))).
Proof. unfold domain. rewrite filter_app. simpl. apply app_nil_r. Qed.

Lemma concrete_domain_NoDup (i : nat) (rs : list Row) :
  NoDup (filter nonwild (domain i rs)).
Proof.
  rewrite concrete_domain. apply NoDup_filter. unfold sorted.
  apply isort_NoDup, unique_NoDup.
Qed.

Lemma concrete_domain_in (i : nat) (rs : list Row) (r : Row) (s : string) :
  In r rs -> cell i r = Some s -> nonwild s = true ->
  In s (filter nonwild (domain i rs)).
Proof.
  intros Hr Hc Hs. rewrite concrete_domain. apply filter_In. split; [|assumption].
  unfold sorted. apply isort_in, unique_in, dropna_in.
  rewrite <- Hc. now apply in_map.
Qed.

Lemma filter_concrete_product (lists : list (list string)) :
  filter concrete (product lists) = product (map (filter nonwild) lists).
Proof.
  induction lists as [|l rest IH]; [reflexivity|].
  cbn [product map]. induction l as [|x l IHl]; [reflexivity|].
  cbn [flat_map filter]. rewrite filter_app, IHl. clear IHl.
  assert (Hx : filter concrete (map (cons x) (product rest))
               = if nonwild x then map (cons x) (product (map (filter nonwild) rest))
                 else []).
  { rewrite filter_map_swap. cbn [concrete forallb]. fold (nonwild x).
    destruct (nonwild x); cbn [andb].
    - f_equal. exact IH.
    - now rewrite filter_none. }
  rewrite Hx. destruct (nonwild x); reflexivity.
Qed.

Lemma product_concrete (lists : list (list string)) (t : list string) :
  In t (product (map (filter nonwild) lists)) -> concrete t = true.
Proof.
  rewrite <- filter_concrete_product, filter_In. tauto.
Qed.

Lemma NoDup_map_injective {A B : Type} (f : A -> B) (l : list A) :
  (forall x y, f x = f y -> x = y) -> NoDup l -> NoDup (map f l).
Proof.
  intros Hinj. induction 1 as [|x l Hx Hnd IH]; simpl; constructor; [|assumption].
  intros Hin. apply in_map_iff in Hin. destruct Hin as [y [Hy Hin]].
  apply Hinj in Hy. now subst.
Qed.

Lemma product_NoDup {A : Type} (lists : list (list A)) :
  Forall (@NoDup A) lists -> NoDup (product lists).
Proof.
  induction 1 as [|l rest Hl Hrest IH]; simpl.
  - constructor; [intros [] | constructor].
  - induction Hl as [|x l Hx Hl IHl]; simpl; [constructor|].
    apply NoDup_app.
    + apply NoDup_map_injective; [|assumption]. intros a b E. now injection E.
    + exact IHl.
    + intros t Ht Hc. apply in_map_iff in Ht. destruct Ht as [t' [<- _]].
      apply in_flat_map in Hc. destruct Hc as [y [Hy Hc]].
      apply in_map_iff in Hc. destruct Hc as [t'' [E _]].
      injection E as -> _. contradiction.
Qed.

Lemma list_sum_perm (l l' : list nat) : Permutation l l' -> list_sum l = list_sum l'.
Proof. induction 1; simpl; lia. Qed.

Lemma filter_perm {A : Type} (f : A -> bool) (l l' : list A) :
  Permutation l l' -> Permutation (filter f l) (filter f l').
Proof.
  induction 1 as [|x l l' _ IH|x y l|l l' l'' _ IH1 _ IH2]; simpl.
  - constructor.
  - destruct (f x); [now constructor | assumption].
  - destruct (f x), (f y); try reflexivity. constructor.
  - now transitivity (filter f l').
Qed.

Lemma plain_key_covered (idx : list nat) (rs : list Row) (r : Row) :
  In r rs ->
  forallb (fun c => match c with
                    | Some s => negb (String.eqb s wildcard)
                    | None => false
                    end) (key_of idx r) = true ->
  exists t, key_of idx r = map Some t
            /\ In t (product (map (filter nonwild) (map (fun i => domain i rs) idx))).
Proof.
  intros Hr. induction idx as [|i idx IH]; simpl; intros Hp.
  - exists []. split; [reflexivity | now left].
  - apply andb_true_iff in Hp. destruct Hp as [Hc Hp].
    destruct (IH Hp) as [t [Hk Ht]].
    destruct (cell i r) as [s|] eqn:Ec; [|discriminate].
    exists (s :: t). split; [simpl; now rewrite Hk|].
    apply in_flat_map. exists s. split.
    + eapply concrete_domain_in; eassumption.
    + now apply in_map.
Qed.

Lemma concrete_counts_cover (idx : list nat) (rs : list Row) :
  plain_cells idx rs = true ->
  list_sum (map (fun c => length (filter (matches idx c) rs))
                (product (map (filter nonwild) (map (fun i => domain i rs) idx))))
  = length rs.
Proof.
  intros Hplain.
  set (K := product (map (filter nonwild) (map (fun i => domain i rs) idx))).
  assert (Hnd : NoDup (map (map Some) K)).
  { apply NoDup_map_injective; [apply map_Some_inj|].
    apply product_NoDup, Forall_forall. intros l Hl.
    apply in_map_iff in Hl. destruct Hl as [d [<- Hd]].
    apply in_map_iff in Hd. destruct Hd as [i [<- _]].
    apply concrete_domain_NoDup. }
  assert (Hcov : forall r, In r rs -> (fun _ : list category => true) (key_of idx r) = true ->
                           In (key_of idx r) (map (map Some) K)).
  { intros r Hr _. unfold plain_cells in Hplain.
    rewrite forallb_forall in Hplain.
    destruct (plain_key_covered idx rs r Hr (Hplain r Hr)) as [t [-> Ht]].
    now apply in_map. }
  pose proof (rollup Nat.add 0 (fun _ => 1) Nat.add_assoc Nat.add_comm Nat.add_0_l
                idx (fun _ => true) _ rs Hnd Hcov) as Hroll.
  rewrite !filter_all in Hroll by reflexivity.
  rewrite measure_count in Hroll. rewrite <- Hroll.
  unfold list_sum. f_equal. rewrite map_map. apply map_ext_in.
  intros c Hc. rewrite measure_count. f_equal. unfold members.
  apply filter_ext. intros r. rewrite matches_concrete; [reflexivity|].
  now apply product_concrete in Hc.
Qed.

Lemma concrete_total_spec (df : DataFrame) (cols : list string) :
  concrete_total (summary_of df cols)
  = list_sum (map (fun c => length (filter (matches (indices_of df cols) c) (rows df)))
                  (filter concrete (combinations df cols))).
Proof.
  unfold concrete_total. rewrite summary_body_sorted_combos.
  rewrite filter_map_swap.
  rewrite (filter_ext (fun x => concrete_row (entry_of _ _ x)) concrete)
    by (intros c; apply concrete_row_record).
  rewrite map_map.
  rewrite (map_ext_in
             (fun x => s_rows (entry_of (indices_of df cols) (coerced (rows df)) x))
             (fun c => length (filter (matches (indices_of df cols) c) (rows df)))).
  - apply list_sum_perm, Permutation_map, filter_perm.
    symmetry. apply isort_perm.
  - intros c Hc. apply filter_In in Hc. destruct Hc as [_ Hc].
    unfold entry_of, record_of, machine_stats. cbn [s_rows fst].
    now rewrite picked_concrete, filter_matches_coerced, coerced_length.
Qed.

(** C3, as the claim has it, fails: a row whose category cell is missing, or
    is the literal "all", belongs to no concrete combination, so the concrete
    records of these one-row tables sum to 0. *)
Lemma concrete_total_counterexample :
  (export_combinations_and_summary [] missing_cell_df ["corner"%string]
     "out" "summary.csv" true
   = Ok (outcome_of [] missing_cell_df ["corner"%string] "out" "summary.csv" true)
   /\ concrete_total
        (summary_df (outcome_of [] missing_cell_df ["corner"%string]
                       "out" "summary.csv" true))
      <> length (rows missing_cell_df))
  /\ (export_combinations_and_summary [] literal_all_df ["corner"%string]
        "out" "summary.csv" true
      = Ok (outcome_of [] literal_all_df ["corner"%string] "out" "summary.csv" true)
      /\ concrete_total
           (summary_df (outcome_of [] literal_all_df ["corner"%string]
                          "out" "summary.csv" true))
         <> length (rows literal_all_df)).
Proof.
  split; (split; [vm_compute; reflexivity | vm_compute; discriminate]).
Qed.

(** C3, amended. When no category cell of the input is missing and none is
    the literal "all", the row counts of the records without a wildcard add
    up to the number of rows of the input table. *)
Theorem concrete_total_is_row_count (fs : filesystem) (df : DataFrame)
    (cols : list string) (outdir summary_csv : string) (flag : bool) (o : outcome) :
  export_combinations_and_summary fs df cols outdir summary_csv flag = Ok o ->
  plain_cells (indices_of df cols) (rows df) = true ->
  concrete_total (summary_df o) = length (rows df).
Proof.
  intros H Hplain. apply export_ok_outcome in H. subst o.
  cbn [outcome_of summary_df]. rewrite concrete_total_spec.
  unfold combinations. rewrite filter_concrete_product.
  now apply concrete_counts_cover.
Qed.

Lemma concrete_total_is_row_count_witness :
  concrete_total (summary_of example_df example_cols) = 3.
Proof.
  apply (concrete_total_is_row_count [] example_df example_cols "out" "summary.csv" true
           (outcome_of [] example_df example_cols "out" "summary.csv" true)).
  - vm_compute. reflexivity.
  - vm_compute. reflexivity.
Defined.

(** ** The value "all" *)

Lemma matches_iff (idx : list nat) (combo : list string) (r : Row) :
  length combo = length idx ->
  matches idx combo r = true
  <-> Forall2 (fun v i => v = wildcard \/ cell i r = Some v) combo idx.
Proof.
  unfold matches. revert idx.
  induction combo as [|v combo IH]; intros [|i idx] Hlen; simpl in Hlen; try discriminate.
  - simpl. split; [constructor | reflexivity].
  - cbn [slicer_of map key_of selects]. fold (slicer_of combo). fold (key_of idx r).
    rewrite andb_true_iff, IH by lia.
    assert (Hv : selects_level (if String.eqb v wildcard then SliceAll else Label v)
                   (cell i r) = true
                 <-> (v = wildcard \/ cell i r = Some v)).
    { destruct (String.eqb v wildcard) eqn:E; cbn [selects_level].
      - apply String.eqb_eq in E. tauto.
      - apply String.eqb_neq in E. rewrite category_eqb_eq.
        split; [intros <-; now right | intros [?|?]; congruence]. }
    rewrite Hv. split.
    + intros [H1 H2]. now constructor.
    + intros H. inversion H; subst. tauto.
Qed.

Lemma filter_split_length {A : Type} (p q : A -> bool) (l : list A) :
  length (filter p l)
  = length (filter (fun x => p x && q x) l)
    + length (filter (fun x => p x && negb (q x)) l).
Proof.
  induction l as [|x t IH]; simpl; [reflexivity|].
  destruct (p x), (q x); simpl; lia.
Qed.

Lemma domain_lists_all_twice (i : nat) (rs : list Row) :
  In (Some wildcard) (map (cell i) rs) ->
  count_occ string_dec (domain i rs) wildcard = 2.
Proof.
  intros Hin. unfold domain. rewrite count_occ_app. simpl.
  destruct (string_dec wildcard wildcard) as [_|Hne]; [|congruence].
  assert (Hnd : NoDup (sorted (unique (dropna (map (cell i) rs)))))
    by (apply isort_NoDup, unique_NoDup).
  assert (Hmem : In wildcard (sorted (unique (dropna (map (cell i) rs)))))
    by (apply isort_in, unique_in, dropna_in; exact Hin).
  pose proof (proj1 (NoDup_count_occ string_dec _) Hnd wildcard) as Hle.
  pose proof (proj1 (count_occ_In string_dec _ _) Hmem) as Hgt.
  lia.
Qed.

Lemma product_nonempty {A : Type} (lists : list (list A)) :
  (forall l, In l lists -> l <> []) -> product lists <> [].
Proof.
  induction lists as [|l rest IH]; intros H; simpl; [discriminate|].
  destruct l as [|x l]; [exfalso; apply (H []); [now left | reflexivity]|].
  simpl. destruct (product rest) as [|p P] eqn:E.
  - exfalso. apply IH; [|reflexivity]. intros; apply H; now right.
  - discriminate.
Qed.

Lemma NoDup_app_disjoint {A : Type} (l1 l2 : list A) (a : A) :
  NoDup (l1 ++ l2) -> In a l1 -> In a l2 -> False.
Proof.
  induction l1 as [|x l1 IH]; simpl; intros Hnd H1 H2; [assumption|].
  inversion Hnd as [|? ? Hx Hnd']; subst.
  destruct H1 as [->|H1]; [|now apply IH].
  apply Hx, in_or_app. now right.
Qed.

Lemma product_NoDup_inv {A : Type} (lists : list (list A)) :
  (forall l, In l lists -> l <> []) ->
  NoDup (product lists) -> Forall (@NoDup A) lists.
Proof.
  induction lists as [|l rest IH]; intros Hne Hnd; [constructor|].
  assert (Hrest : forall l', In l' rest -> l' <> []) by (intros; apply Hne; now right).
  pose proof (product_nonempty rest Hrest) as HP.
  cbn [product] in Hnd. constructor.
  - clear Hne IH. induction l as [|x l IHl]; [constructor|].
    cbn [flat_map] in Hnd. constructor.
    + intros Hx. destruct (product rest) as [|p P] eqn:E; [congruence|].
      apply (NoDup_app_disjoint _ _ (x :: p) Hnd).
      * now left.
      * apply in_flat_map. exists x. split; [assumption | now left].
    + apply IHl. eapply NoDup_app_remove_l; eassumption.
  - apply IH; [assumption|].
    destruct l as [|x l]; [exfalso; apply (Hne []); [now left | reflexivity]|].
    cbn [flat_map] in Hnd. apply NoDup_app_remove_r in Hnd.
    eapply NoDup_map_inv. eassumption.
Qed.

Lemma duplicate_domain_duplicates_summary (df : DataFrame) (cols : list string) (i : nat) :
  In i (indices_of df cols) ->
  In (Some wildcard) (map (cell i) (rows df)) ->
  ~ NoDup (s_body (summary_of df cols)).
Proof.
  intros Hi Hall Hnd. rewrite summary_body_sorted_combos in Hnd.
  apply NoDup_map_inv in Hnd.
  apply (Permutation_NoDup (Permutation_sym (isort_perm tuple_leb _))) in Hnd.
  unfold combinations in Hnd. apply product_NoDup_inv in Hnd.
  - rewrite Forall_forall in Hnd.
    assert (Hd : NoDup (domain i (rows df))).
    { apply Hnd, in_map_iff. exists i. split; [reflexivity | assumption]. }
    pose proof (proj1 (NoDup_count_occ string_dec _) Hd wildcard) as Hle.
    rewrite domain_lists_all_twice in Hle by assumption. lia.
  - intros l Hl. apply in_map_iff in Hl. destruct Hl as [i' [<- _]].
    intros E. pose proof (wildcard_in_domain i' (rows df)) as Hw.
    rewrite E in Hw. destruct Hw.
Qed.

Lemma filter_all_length {A : Type} (p q : A -> bool) (l : list A) :
  length (filter p l) = length (filter (fun x => p x && q x) l)
  <-> forall x, In x l -> p x = true -> q x = true.
Proof.
  rewrite (filter_split_length p q l). split.
  - intros H x Hx Hp.
    assert (Hnil : filter (fun x => p x && negb (q x)) l = [])
      by (apply length_zero_iff_nil; lia).
    destruct (q x) eqn:Hq; [reflexivity|].
    assert (Hin : In x (filter (fun x => p x && negb (q x)) l))
      by (apply filter_In; split; [assumption | now rewrite Hp, Hq]).
    rewrite Hnil in Hin. destruct Hin.
  - intros H. rewrite (filter_none (fun x => p x && negb (q x))); [simpl; lia|].
    intros x Hx. destruct (p x) eqn:Hp; [|reflexivity].
    now rewrite (H x Hx Hp).
Qed.

(** C10, as the claim has it, fails in its last clause: in [literal_all3_df]
    every row holds the literal "all" in the first field, the summary has
    duplicate records, and every record counts 1, which is the number of
    rows whose value in that field is literally "all". *)
Lemma literal_all_counterexample :
  export_combinations_and_summary [] literal_all3_df example3_cols
    "out" "summary.csv" true
  = Ok (outcome_of [] literal_all3_df example3_cols "out" "summary.csv" true)
  /\ s_body (summary_df (outcome_of [] literal_all3_df example3_cols
                           "out" "summary.csv" true)) <> []
  /\ ~ NoDup (s_body (summary_df (outcome_of [] literal_all3_df example3_cols
                                    "out" "summary.csv" true)))
  /\ Forall (fun row =>
               s_rows row
               = length (filter (fun r => category_eqb (cell 0 r) (Some "all"%string))
                                (rows literal_all3_df)))
            (s_body (summary_df (outcome_of [] literal_all3_df example3_cols
                                   "out" "summary.csv" true))).
Proof.
  split; [vm_compute; reflexivity|].
  split; [vm_compute; discriminate|].
  split.
  - apply (duplicate_domain_duplicates_summary literal_all3_df example3_cols 0).
    + left. reflexivity.
    + left. reflexivity.
  - vm_compute. repeat constructor.
Qed.

(** C10, amended.  The value "all" in a combination never filters: a row
    agrees with a combination exactly when it agrees with every value that is
    not "all".  For every enumerated combination other than the two-field
    combination ("all", v) with a concrete v, whose lookup is not a roll-up
    of the index and is left out here, the record of the summary counts the
    rows that agree, and so does the lookup (on a table none of whose
    category cells is "rows", "min_slack" or "sum_slack").  When a category column holds the literal
    "all", its domain lists "all" twice and the summary has duplicate
    records.  Such a record counts the rows whose cell in a given column is
    the literal "all" exactly when every row it selects holds "all" there. *)
Theorem all_is_always_the_wildcard (fs : filesystem) (df : DataFrame)
    (cols : list string) (outdir summary_csv : string) (flag : bool) (o : outcome) :
  export_combinations_and_summary fs df cols outdir summary_csv flag = Ok o ->
  (forall combo r,
     length combo = length cols ->
     matches (indices_of df cols) combo r = true
     <-> Forall2 (fun v i => v = wildcard \/ cell i r = Some v)
                 combo (indices_of df cols))
  /\ (reserved_free (indices_of df cols) (rows df) = true ->
      exists agg,
        groupby_agg (df_after o) cols = Ok agg
        /\ forall combo,
             In combo (combinations df cols) ->
             column_lookup (slicer_of combo) = false ->
             exists st,
               resolve agg combo = Ok st
               /\ fst (fst st)
                  = length (filter (matches (indices_of df cols) combo) (rows df)))
  /\ (forall row, In row (s_body (summary_df o)) ->
        exists combo,
          In combo (combinations df cols)
          /\ s_cats row = map Some combo
          /\ (column_lookup (slicer_of combo) = false ->
              s_rows row = length (filter (matches (indices_of df cols) combo) (rows df))
              /\ forall i,
                   s_rows row
                   = length (filter (fun r => matches (indices_of df cols) combo r
                                              && category_eqb (cell i r) (Some wildcard))
                                    (rows df))
                   <-> (forall r, In r (rows df) ->
                                  matches (indices_of df cols) combo r = true ->
                                  cell i r = Some wildcard)))
  /\ (forall i, In i (indices_of df cols) ->
        In (Some wildcard) (map (cell i) (rows df)) ->
        count_occ string_dec (domain i (rows df)) wildcard = 2
        /\ ~ NoDup (s_body (summary_df o))).
Proof.
  intros H. pose proof (export_ok_accepted _ _ _ _ _ _ _ H) as Hacc.
  apply export_ok_outcome in H. subst o. cbn [outcome_of df_after summary_df].
  assert (Hcount : forall combo,
            column_lookup (slicer_of combo) = false ->
            length (picked (indices_of df cols) combo (coerced (rows df)))
            = length (filter (matches (indices_of df cols) combo) (rows df))).
  { intros combo Hc. unfold picked. rewrite Hc.
    now rewrite filter_matches_coerced, coerced_length. }
  split; [|split; [|split]].
  - intros combo r Hlen. apply matches_iff.
    unfold indices_of. now rewrite length_map.
  - intros _. exists (agg_of (indices_of df cols) (coerced (rows df))).
    split; [now apply groupby_agg_accepted|].
    intros combo _ Hc. eexists. split; [apply resolve_spec|].
    cbn [machine_stats fst]. now apply Hcount.
  - intros row Hin. apply summary_body_in in Hin.
    destruct Hin as [combo [Hc ->]]. exists combo.
    split; [exact Hc|]. split; [reflexivity|]. intros Hno.
    assert (Hrows : s_rows (entry_of (indices_of df cols) (coerced (rows df)) combo)
                    = length (filter (matches (indices_of df cols) combo) (rows df))).
    { unfold entry_of, record_of, machine_stats. cbn [s_rows fst]. now apply Hcount. }
    split; [exact Hrows|]. intros i. rewrite Hrows.
    rewrite (filter_all_length (matches (indices_of df cols) combo)
               (fun r => category_eqb (cell i r) (Some wildcard)) (rows df)).
    split; intros Hall r Hr Hm.
    + now apply category_eqb_eq, Hall.
    + now apply category_eqb_eq, Hall.
  - intros i Hi Hall. split.
    + now apply domain_lists_all_twice.
    + now apply duplicate_domain_duplicates_summary with (i := i).
Qed.

Lemma all_is_always_the_wildcard_witness :
  count_occ string_dec (domain 0 (rows mixed_all3_df)) wildcard = 2
  /\ ~ NoDup (s_body (summary_of mixed_all3_df example3_cols)).
Proof.
  assert (Hrun : export_combinations_and_summary [] mixed_all3_df example3_cols
                   "out" "summary.csv" true
                 = Ok (outcome_of [] mixed_all3_df example3_cols
                         "out" "summary.csv" true))
    by (vm_compute; reflexivity).
  destruct (all_is_always_the_wildcard [] mixed_all3_df example3_cols
              "out" "summary.csv" true _ Hrun) as [_ [_ [_ Hdup]]].
  apply (Hdup 0).
  - left. reflexivity.
  - left. reflexivity.
Defined.

(** * Further properties of the run *)

(** ** Every record is the direct statistics of its rows *)

Lemma series_min_none (l : list (option Z)) :
  series_min l = None <-> forall v, In v l -> v = None.
Proof.
  unfold series_min. induction l as [|a l IH]; simpl.
  - split; [intros _ v [] | reflexivity].
  - destruct a as [x|]; simpl.
    + split.
      * destruct (fold_right min_skipna None l); discriminate.
      * intros H. specialize (H (Some x) (or_introl eq_refl)). discriminate.
    + rewrite IH. split.
      * intros H v [<-|Hv]; auto.
      * intros H v Hv. apply H. now right.
Qed.

Lemma series_min_some (l : list (option Z)) (m : Z) :
  series_min l = Some m ->
  In (Some m) l /\ forall x, In (Some x) l -> (m <= x)%Z.
Proof.
  unfold series_min. revert m. induction l as [|a l IH]; simpl; intros m H; [discriminate|].
  destruct a as [x|]; simpl in H.
  - destruct (fold_right min_skipna None l) as [y|] eqn:E.
    + injection H as <-. destruct (IH y eq_refl) as [Hin Hle]. split.
      * destruct (Z.min_spec x y) as [[_ ->]|[_ ->]]; [now left | now right].
      * intros z [Hz|Hz]; [injection Hz as <-; apply Z.le_min_l|].
        specialize (Hle z Hz). pose proof (Z.le_min_r x y). lia.
    + injection H as <-. split; [now left|].
      intros z [Hz|Hz]; [injection Hz as <-; lia|].
      pose proof (proj1 (series_min_none l) E (Some z) Hz). discriminate.
  - destruct (IH m H) as [Hin Hle]. split; [now right|].
    intros z [Hz|Hz]; [discriminate | auto].
Qed.

Lemma series_sum_missing (l : list (option Z)) :
  (forall v, In v l -> v = None) -> series_sum l = 0%Z.
Proof.
  unfold series_sum. induction l as [|a l IH]; simpl; intros H; [reflexivity|].
  rewrite (H a) by now left. simpl. apply IH. intros; apply H; now right.
Qed.

Lemma machine_sum_exact_picked (df : DataFrame) (idx : list nat) (combo : list string)
    (b : bool) :
  exact_slack df = true ->
  machine_sum b (series_sum (slack_values (picked idx combo (coerced (rows df)))))
  = series_sum (slack_values (picked idx combo (coerced (rows df)))).
Proof.
  intros H. unfold picked. destruct (column_lookup (slicer_of combo)).
  - now destruct b.
  - now apply machine_sum_exact.
Qed.

Lemma record_is_direct_statistics_aux (fs : filesystem) (df : DataFrame)
    (cols : list string) (outdir summary_csv : string) (flag : bool) (o : outcome) :
  export_combinations_and_summary fs df cols outdir summary_csv flag = Ok o ->
  exact_slack df = true ->
  forall row, In row (s_body (summary_df o)) ->
    exists combo,
      In combo (combinations df cols)
      /\ s_cats row = map Some combo
      /\ s_rows row
         = length (picked (indices_of df cols) combo (rows (df_after o)))
      /\ s_min_slack row
         = series_min (slack_values
             (picked (indices_of df cols) combo (rows (df_after o))))
      /\ s_sum_slack row
         = series_sum (slack_values
             (picked (indices_of df cols) combo (rows (df_after o)))).
Proof.
  intros H Hexact row Hin. apply export_ok_outcome in H. subst o.
  cbn [outcome_of df_after summary_df] in *.
  apply summary_body_in in Hin. destruct Hin as [combo [Hc ->]].
  exists combo. unfold table_after. cbn [rows].
  unfold entry_of, record_of, machine_stats.
  cbn [s_cats s_rows s_min_slack s_sum_slack fst snd].
  rewrite machine_sum_exact_picked by assumption.
  repeat split. exact Hc.
Qed.

(** X2. On a table whose slack arithmetic is exact and whose category cells
    are none of "rows", "min_slack", "sum_slack", every record of the returned
    summary belongs to an enumerated combination and holds the statistics of
    the rows that its lookup picks: their number, the minimum of their
    non-missing slack and the sum of their non-missing slack.  The picked rows
    are the rows of the coerced table that agree with the combination on its
    fields other than "all"; only the two-field combination ("all", v) with a
    concrete v picks none, so that its record is (0, missing, 0) whatever the
    table holds. *)
Theorem record_is_direct_statistics (fs : filesystem) (df : DataFrame)
    (cols : list string) (outdir summary_csv : string) (flag : bool) (o : outcome) :
  export_combinations_and_summary fs df cols outdir summary_csv flag = Ok o ->
  exact_slack df = true ->
  reserved_free (indices_of df cols) (rows df) = true ->
  forall row, In row (s_body (summary_df o)) ->
    exists combo,
      In combo (combinations df cols)
      /\ s_cats row = map Some combo
      /\ let selected := picked (indices_of df cols) combo (rows (df_after o)) in
         s_rows row = length selected
         /\ s_min_slack row = series_min (slack_values selected)
         /\ s_sum_slack row = series_sum (slack_values selected).
Proof.
  intros H Hexact _ row Hin.
  destruct (record_is_direct_statistics_aux fs df cols outdir summary_csv flag o
              H Hexact row Hin)
    as [combo [Hc [Hcats [Hn [Hmin Hsum]]]]].
  exists combo. cbv zeta. auto.
Qed.

Lemma record_is_direct_statistics_witness :
  let row := mkSummaryRow [Some "P1"; Some "all"; Some "C1"]%string 3 (Some (-2)%Z) 2%Z in
  exists combo,
    In combo (combinations example3_df example3_cols)
    /\ s_cats row = map Some combo
    /\ let selected :=
         picked (indices_of example3_df example3_cols) combo (rows example3_df) in
       s_rows row = length selected
       /\ s_min_slack row = series_min (slack_values selected)
       /\ s_sum_slack row = series_sum (slack_values selected).
Proof.
  intros row.
  apply (record_is_direct_statistics [] example3_df example3_cols "out" "summary.csv" true
           (outcome_of [] example3_df example3_cols "out" "summary.csv" true)).
  - vm_compute. reflexivity.
  - vm_compute. reflexivity.
  - vm_compute. reflexivity.
  - apply summary_body_in. exists ["P1"; "all"; "C1"]%string. split.
    + apply in_product. repeat constructor; vm_compute; tauto.
    + vm_compute. reflexivity.
Defined.

(** X3. The invariants of a summary record, on a table whose slack
    arithmetic is exact and whose category cells are none of "rows",
    "min_slack", "sum_slack".  A record with row count 0 has a missing
    min_slack and sum_slack 0.  A min_slack that is present is the slack of
    one of the picked rows and is below or equal to every non-missing slack
    among them; min_slack is missing exactly when no picked row has a numeric
    slack. *)
Theorem record_invariants (fs : filesystem) (df : DataFrame)
    (cols : list string) (outdir summary_csv : string) (flag : bool) (o : outcome) :
  export_combinations_and_summary fs df cols outdir summary_csv flag = Ok o ->
  exact_slack df = true ->
  reserved_free (indices_of df cols) (rows df) = true ->
  forall row, In row (s_body (summary_df o)) ->
    (s_rows row = 0 -> s_min_slack row = None /\ s_sum_slack row = 0%Z)
    /\ exists combo,
         s_cats row = map Some combo
         /\ let selected := picked (indices_of df cols) combo (rows (df_after o)) in
            (s_min_slack row = None
             <-> forall r, In r selected -> as_float (slack r) = None)
            /\ (forall m, s_min_slack row = Some m ->
                  (exists r, In r selected /\ slack r = Num m)
                  /\ forall r x, In r selected -> slack r = Num x -> (m <= x)%Z).
Proof.
  intros H Hexact _ row Hin.
  destruct (record_is_direct_statistics_aux fs df cols outdir summary_csv flag o
              H Hexact row Hin)
    as [combo [_ [Hcats [Hn [Hmin Hsum]]]]].
  split.
  - intros H0. rewrite Hn in H0. apply length_zero_iff_nil in H0.
    rewrite Hmin, Hsum, H0. split; reflexivity.
  - exists combo. split; [exact Hcats|]. cbv zeta. rewrite Hmin. split.
    + rewrite series_min_none. unfold slack_values. split.
      * intros Hall r Hr. apply Hall.
        apply in_map_iff. exists r. split; [reflexivity | assumption].
      * intros Hall v Hv. apply in_map_iff in Hv. destruct Hv as [r [<- Hr]]. auto.
    + intros m Hm. apply series_min_some in Hm. destruct Hm as [Hm Hle]. split.
      * unfold slack_values in Hm. apply in_map_iff in Hm.
        destruct Hm as [r [Hr Hin']]. exists r. split; [assumption|].
        destruct (slack r); simpl in Hr; congruence.
      * intros r x Hr Hx. apply Hle. unfold slack_values.
        apply in_map_iff. exists r. split; [now rewrite Hx | assumption].
Qed.

Lemma record_invariants_witness :
  let row := mkSummaryRow [Some "P2"; Some "E1"; Some "all"]%string 0 None 0%Z in
  In row (s_body (summary_of example3_df example3_cols))
  /\ s_min_slack row = None /\ s_sum_slack row = 0%Z.
Proof.
  intros row.
  assert (Hrun : export_combinations_and_summary [] example3_df example3_cols
                   "out" "summary.csv" true
                 = Ok (outcome_of [] example3_df example3_cols "out" "summary.csv" true))
    by (vm_compute; reflexivity).
  assert (Hin : In row (s_body (summary_of example3_df example3_cols))).
  { apply summary_body_in. exists ["P2"; "E1"; "all"]%string. split.
    - apply in_product. repeat constructor; vm_compute; tauto.
    - vm_compute. reflexivity. }
  split; [exact Hin|].
  assert (He : exact_slack example3_df = true) by (vm_compute; reflexivity).
  assert (Hr : reserved_free (indices_of example3_df example3_cols) (rows example3_df)
               = true) by (vm_compute; reflexivity).
  destruct (record_invariants [] example3_df example3_cols
              "out" "summary.csv" true _ Hrun He Hr row Hin) as [Hzero _].
  apply Hzero. reflexivity.
Defined.

(** ** The domains and the size of the summary *)

Lemma product_size {A : Type} (lists : list (list A)) :
  length (product lists) = fold_right Nat.mul 1 (map (@length A) lists).
Proof.
  induction lists as [|l rest IH]; simpl; [reflexivity|].
  rewrite <- IH. induction l as [|x l IHl]; simpl; [reflexivity|].
  now rewrite length_app, length_map, IHl.
Qed.

Lemma isort_length {A : Type} (leb : A -> A -> bool) (l : list A) :
  length (isort leb l) = length l.
Proof. symmetry. apply Permutation_length, isort_perm. Qed.

(** X4. The value list of a category column (line 20) is a strictly
    duplicate-free, ascending list of exactly the non-missing values of the
    column, followed by "all" as its last element. *)
Theorem value_list_shape (df : DataFrame) (c : string) (d : list string) :
  value_list df c = Ok d ->
  exists i values,
    index_of c (columns df) = Some i
    /\ d = values ++ ["all"%string]
    /\ NoDup values
    /\ Sorted (fun a b => String.leb a b = true) values
    /\ forall v, In v values <-> In (Some v) (map (cell i) (rows df)).
Proof.
  unfold value_list, get_column. intros H.
  destruct (index_of c (columns df)) as [i|] eqn:Hi; [|discriminate].
  cbn [bind] in H. injection H as <-.
  exists i, (sorted (unique (dropna (map (cell i) (rows df))))).
  repeat split.
  - apply isort_NoDup, unique_NoDup.
  - apply isort_sorted. apply String.leb_total.
  - intros Hv. now apply isort_in, unique_in, dropna_in in Hv.
  - intros Hv. now apply isort_in, unique_in, dropna_in.
Qed.

Lemma value_list_shape_witness :
  exists i values,
    index_of "endpoint" (columns example_df) = Some i
    /\ ["E1"; "E2"; "all"]%string = values ++ ["all"%string]
    /\ NoDup values
    /\ Sorted (fun a b => String.leb a b = true) values
    /\ forall v, In v values <-> In (Some v) (map (cell i) (rows example_df)).
Proof.
  apply (value_list_shape example_df "endpoint"). reflexivity.
Defined.

(** X5. The summary has one record per element of the Cartesian product
    of the domains: its number of rows is the product, over the category
    fields, of one plus the number of distinct non-missing values of the
    field's column. *)
Theorem summary_size (fs : filesystem) (df : DataFrame)
    (cols : list string) (outdir summary_csv : string) (flag : bool) (o : outcome) :
  export_combinations_and_summary fs df cols outdir summary_csv flag = Ok o ->
  length (s_body (summary_df o))
  = fold_right Nat.mul 1
      (map (fun i => S (length (unique (dropna (map (cell i) (rows df))))))
           (indices_of df cols)).
Proof.
  intros H. apply export_ok_outcome in H. subst o. cbn [outcome_of summary_df].
  rewrite summary_body_sorted_combos, length_map, isort_length.
  unfold combinations. rewrite product_size, map_map. f_equal.
  apply map_ext. intros i. unfold domain, sorted.
  rewrite length_app, isort_length. simpl. lia.
Qed.

Lemma summary_size_witness :
  length (s_body (summary_of example_df example_cols)) = 6.
Proof.
  apply (summary_size [] example_df example_cols "out" "summary.csv" true
           (outcome_of [] example_df example_cols "out" "summary.csv" true)).
  vm_compute. reflexivity.
Defined.

Lemma domain_NoDup (i : nat) (rs : list Row) :
  ~ In (Some wildcard) (map (cell i) rs) -> NoDup (domain i rs).
Proof.
  intros Hn. unfold domain. apply NoDup_app.
  - apply isort_NoDup, unique_NoDup.
  - constructor; [intros [] | constructor].
  - intros a Ha [<-|[]]. apply Hn. now apply isort_in, unique_in, dropna_in in Ha.
Qed.

(** X6. When no category column of the input holds the literal "all", the
    records of the summary have pairwise distinct category tuples (the
    converse of the duplication that a literal "all" causes). *)
Theorem distinct_keys_without_literal_all (fs : filesystem) (df : DataFrame)
    (cols : list string) (outdir summary_csv : string) (flag : bool) (o : outcome) :
  export_combinations_and_summary fs df cols outdir summary_csv flag = Ok o ->
  (forall i, In i (indices_of df cols) -> ~ In (Some wildcard) (map (cell i) (rows df))) ->
  NoDup (map s_cats (s_body (summary_df o))).
Proof.
  intros H Hno. apply export_ok_outcome in H. subst o. cbn [outcome_of summary_df].
  rewrite summary_body_sorted_combos, map_map.
  change (map (fun x => s_cats (entry_of (indices_of df cols) (coerced (rows df)) x)))
    with (map (fun x : list string => map Some x)).
  apply NoDup_map_injective; [apply map_Some_inj|].
  apply isort_NoDup. unfold combinations. apply product_NoDup, Forall_forall.
  intros l Hl. apply in_map_iff in Hl. destruct Hl as [i [<- Hi]].
  now apply domain_NoDup, Hno.
Qed.

Lemma distinct_keys_without_literal_all_witness :
  NoDup (map s_cats (s_body (summary_of example_df example_cols))).
Proof.
  apply (distinct_keys_without_literal_all [] example_df example_cols
           "out" "summary.csv" true
           (outcome_of [] example_df example_cols "out" "summary.csv" true)).
  - vm_compute. reflexivity.
  - intros i Hi Hc. vm_compute in Hi, Hc.
    destruct Hi as [<-|[<-|[]]]; vm_compute in Hc;
      repeat (destruct Hc as [Hc|Hc]; [discriminate|]); exact Hc.
Defined.

(** ** What the run writes *)

Lemma export_step_writes (df : DataFrame) (idx : list nat) (cols : list string)
    (outdir : string) (flag : bool) (fs : filesystem) (combo : list string) :
  export_step df idx cols outdir flag fs combo
  = export_step df idx cols outdir flag [] combo ++ fs.
Proof.
  unfold export_step.
  destruct (flag && (0 <? length (picked idx combo (rows df)))%nat); reflexivity.
Qed.

Lemma fold_export_steps (df : DataFrame) (idx : list nat) (cols : list string)
    (outdir : string) (flag : bool) (combos : list (list string)) (fs : filesystem) :
  fold_left (export_step df idx cols outdir flag) combos fs
  = rev (flat_map (fun combo => export_step df idx cols outdir flag [] combo) combos) ++ fs.
Proof.
  revert fs. induction combos as [|combo combos IH]; intros fs; simpl; [reflexivity|].
  rewrite IH, export_step_writes, rev_app_distr, <- app_assoc. f_equal.
  unfold export_step.
  destruct (flag && (0 <? length (picked idx combo (rows df)))%nat); reflexivity.
Qed.

(** X7. With [export_filtered_csvs] false the run returns the same summary
    and leaves the same table as with any other setting of the flag, and the
    only file it writes is the summary: the store afterwards is the store
    before with the summary file put on top. *)
Theorem summary_only_run (fs : filesystem) (df : DataFrame)
    (cols : list string) (outdir summary_csv : string) (flag : bool) (o : outcome) :
  export_combinations_and_summary fs df cols outdir summary_csv flag = Ok o ->
  exists o',
    export_combinations_and_summary fs df cols outdir summary_csv false = Ok o'
    /\ summary_df o' = summary_df o
    /\ df_after o' = df_after o
    /\ fs_after o'
       = (summary_path outdir summary_csv, SummaryCsv (summary_df o)) :: fs.
Proof.
  intros H. pose proof (export_ok_accepted _ _ _ _ _ _ _ H) as Hacc.
  apply export_ok_outcome in H. subst o.
  exists (outcome_of fs df cols outdir summary_csv false).
  split; [now apply export_accepted|].
  unfold outcome_of. cbn [summary_df df_after fs_after]. repeat split.
  unfold files_of, write. rewrite fold_export_steps. f_equal.
  assert (Hnil : flat_map (fun combo =>
                    export_step (table_after df) (indices_of df cols) cols outdir false [] combo)
                   (combinations df cols) = []).
  { induction (combinations df cols) as [|c l IH]; simpl; [reflexivity | exact IH]. }
  now rewrite Hnil.
Qed.

Lemma summary_only_run_witness :
  exists o',
    export_combinations_and_summary [] example_df example_cols "out" "summary.csv" false
    = Ok o'
    /\ summary_df o' = summary_of example_df example_cols
    /\ df_after o' = example_df
    /\ fs_after o'
       = [(summary_path "out" "summary.csv",
           SummaryCsv (summary_of example_df example_cols))].
Proof.
  apply (summary_only_run [] example_df example_cols "out" "summary.csv" true
           (outcome_of [] example_df example_cols "out" "summary.csv" true)).
  vm_compute. reflexivity.
Defined.

(** X8. The subset files of a run, on a table none of whose category cells
    is "rows", "min_slack" or "sum_slack".  A data file that is in the store
    after the call was in the store before it, or it is the subset file of an
    enumerated combination, written with the export flag set at
    [os.path.join(outdir, name)] for the name of that combination: it holds
    exactly the rows of the coerced table that agree with the combination on
    its concrete fields, in table order, it is not empty, and the summary has
    a record of that combination whose row count is the number of rows of the
    file. *)
Theorem files_of_a_run (fs : filesystem) (df : DataFrame)
    (cols : list string) (outdir summary_csv : string) (flag : bool) (o : outcome) :
  export_combinations_and_summary fs df cols outdir summary_csv flag = Ok o ->
  reserved_free (indices_of df cols) (rows df) = true ->
  forall p sub, In (p, FrameCsv sub) (fs_after o) ->
    In (p, FrameCsv sub) fs
    \/ (flag = true
        /\ exists combo row,
             In combo (combinations df cols)
             /\ p = mkPath outdir (spec_file_name cols combo)
             /\ columns sub = columns df
             /\ rows sub = filter (matches (indices_of df cols) combo) (rows (df_after o))
             /\ rows sub <> []
             /\ In row (s_body (summary_df o))
             /\ s_cats row = map Some combo
             /\ s_rows row = length (rows sub)).
Proof.
  intros H _ p sub Hin. apply export_ok_outcome in H. subst o.
  unfold outcome_of in *. cbn [summary_df df_after fs_after] in *.
  unfold files_of, write in Hin. rewrite fold_export_steps in Hin.
  destruct Hin as [Hin|Hin]; [discriminate|].
  apply in_app_or in Hin. destruct Hin as [Hin|Hin]; [|now left]. right.
  apply in_rev, in_flat_map in Hin.
  destruct Hin as [combo [Hc Hin]]. unfold export_step in Hin.
  destruct flag; [|destruct Hin]. split; [reflexivity|]. cbn [andb] in Hin.
  destruct (0 <? length (picked (indices_of df cols) combo (rows (table_after df))))%nat
    eqn:Hpos; [|destruct Hin].
  destruct Hin as [Hin|[]]. injection Hin as <- <-.
  apply Nat.ltb_lt in Hpos.
  pose proof (picked_positive _ _ _ Hpos) as Hpick.
  exists combo, (entry_of (indices_of df cols) (coerced (rows df)) combo).
  repeat split.
  - exact Hc.
  - cbn [subset_of rows]. rewrite <- Hpick. intros E. rewrite E in Hpos. simpl in Hpos. lia.
  - apply summary_body_in. now exists combo.
  - unfold entry_of, record_of, machine_stats. cbn [s_rows fst subset_of rows].
    unfold table_after in Hpick. cbn [rows] in Hpick. now rewrite Hpick.
Qed.

Lemma files_of_a_run_witness :
  let sub := mkDF example3_cols true
               [ mkRow [Some "P1"; Some "E1"; Some "C1"]%string (Num 1);
                 mkRow [Some "P1"; Some "E1"; Some "C1"]%string (Num (-2));
                 mkRow [Some "P1"; Some "E2"; Some "C1"]%string (Num 3) ] in
  let p := mkPath "out" "path_last-P1_endpoint-all_corner-C1.csv" in
  In (p, FrameCsv sub)
     (fs_after (outcome_of [] example3_df example3_cols "out" "summary.csv" true))
  /\ exists combo row,
       In combo (combinations example3_df example3_cols)
       /\ p = mkPath "out" (spec_file_name example3_cols combo)
       /\ columns sub = columns example3_df
       /\ rows sub = filter (matches (indices_of example3_df example3_cols) combo)
                            (rows example3_df)
       /\ rows sub <> []
       /\ In row (s_body (summary_of example3_df example3_cols))
       /\ s_cats row = map Some combo
       /\ s_rows row = length (rows sub).
Proof.
  intros sub p.
  assert (Hrun : export_combinations_and_summary [] example3_df example3_cols
                   "out" "summary.csv" true
                 = Ok (outcome_of [] example3_df example3_cols "out" "summary.csv" true))
    by (vm_compute; reflexivity).
  assert (Hin : In (p, FrameCsv sub)
                   (fs_after (outcome_of [] example3_df example3_cols
                                "out" "summary.csv" true))).
  { vm_compute. repeat (first [left; reflexivity | right]). }
  split; [exact Hin|].
  assert (Hr : reserved_free (indices_of example3_df example3_cols) (rows example3_df)
               = true) by (vm_compute; reflexivity).
  destruct (files_of_a_run [] example3_df example3_cols "out" "summary.csv" true _
              Hrun Hr p sub Hin) as [[]|[_ Hex]].
  exact Hex.
Defined.

(** ** Calls that return *)

(** X1. A call returns only if every named category field and "slack" are
    columns of the table, the field list is not empty, and the labels of the
    summary table (the fields followed by rows, min_slack and sum_slack) are
    pairwise distinct: a missing column stops it with KeyError, an empty
    field list stops groupby, and a repeated label stops sort_values. *)
Theorem returning_call_was_well_formed (fs : filesystem) (df : DataFrame)
    (cols : list string) (outdir summary_csv : string) (flag : bool) (o : outcome) :
  export_combinations_and_summary fs df cols outdir summary_csv flag = Ok o ->
  (forall c, In c cols -> In c (columns df))
  /\ has_slack df = true
  /\ cols <> []
  /\ NoDup (cols ++ ["rows"; "min_slack"; "sum_slack"]%string).
Proof.
  intros H. apply export_ok_accepted in H. now apply accepted_iff in H.
Qed.

Lemma returning_call_was_well_formed_witness :
  (forall c, In c example3_cols -> In c (columns example3_df))
  /\ has_slack example3_df = true
  /\ example3_cols <> []
  /\ NoDup (example3_cols ++ ["rows"; "min_slack"; "sum_slack"]%string).
Proof.
  apply (returning_call_was_well_formed [] example3_df example3_cols
           "out" "summary.csv" true
           (outcome_of [] example3_df example3_cols "out" "summary.csv" true)).
  vm_compute. reflexivity.
Defined.

(** ** A wildcard record and the records that refine it *)

Lemma selects_cons (x : string) (combo : list string) (i : nat) (idx : list nat)
    (r : Row) :
  selects (slicer_of (x :: combo)) (key_of (i :: idx) r)
  = selects_level (if String.eqb x wildcard then SliceAll else Label x) (cell i r)
    && selects (slicer_of combo) (key_of idx r).
Proof. reflexivity. Qed.

Lemma matches_refine (idx : list nat) (combo : list string) (j i : nat) (v : string)
    (r : Row) :
  length combo = length idx ->
  nth_error combo j = Some wildcard ->
  nth_error idx j = Some i ->
  nonwild v = true ->
  matches idx (refine j v combo) r
  = matches idx combo r && category_eqb (cell i r) (Some v).
Proof.
  unfold matches, refine. revert combo idx.
  induction j as [|j IH]; intros [|x combo] [|i0 idx] Hlen Hc Hi Hv;
    simpl in Hlen, Hc, Hi; try discriminate.
  - injection Hc as ->. injection Hi as ->.
    cbn [firstn skipn app]. rewrite !selects_cons.
    unfold nonwild in Hv. apply negb_true_iff in Hv. rewrite Hv.
    change (String.eqb wildcard wildcard) with true. cbn [selects_level].
    rewrite (category_eqb_sym (Some v)). apply andb_comm.
  - change (skipn (S (S j)) (x :: combo)) with (skipn (S j) combo).
    change (firstn (S j) (x :: combo)) with (x :: firstn j combo).
    rewrite <- app_comm_cons, !selects_cons.
    rewrite (IH combo idx) by (assumption || lia).
    now rewrite andb_assoc.
Qed.

Lemma refine_enumerated (lists : list (list string)) (combo : list string)
    (j : nat) (l : list string) (v : string) :
  In combo (product lists) -> nth_error lists j = Some l -> In v l ->
  In (refine j v combo) (product lists).
Proof.
  rewrite !in_product. unfold refine. intros H. revert j.
  induction H as [|x l0 combo lists Hx Hrest IH]; intros [|j] Hl Hv;
    simpl in Hl; try discriminate.
  - injection Hl as ->. simpl. now constructor.
  - simpl. constructor; [assumption | now apply IH].
Qed.

Lemma count_splits_over_domain (idx : list nat) (rs : list Row) (combo : list string)
    (j i : nat) :
  length combo = length idx ->
  nth_error combo j = Some wildcard ->
  nth_error idx j = Some i ->
  length (filter (matches idx combo) rs)
  = list_sum (map (fun v => length (filter (matches idx (refine j v combo)) rs))
                  (filter nonwild (domain i rs)))
    + length (filter (fun r => matches idx combo r && negb (plain (cell i r))) rs).
Proof.
  intros Hlen Hc Hi.
  rewrite (filter_split_length (matches idx combo) (fun r => plain (cell i r))).
  f_equal.
  set (Rp := filter (fun r => matches idx combo r && plain (cell i r)) rs).
  set (D := filter nonwild (domain i rs)).
  assert (Hnd : NoDup (map (fun v => [Some v]) D)).
  { apply NoDup_map_injective; [intros a b E; now injection E|].
    apply concrete_domain_NoDup. }
  assert (Hcov : forall r, In r Rp -> (fun _ : list category => true) (key_of [i] r) = true ->
                           In (key_of [i] r) (map (fun v => [Some v]) D)).
  { intros r Hr _. unfold Rp in Hr. apply filter_In in Hr.
    destruct Hr as [Hr Hp]. apply andb_true_iff in Hp. destruct Hp as [_ Hp].
    cbn [key_of map]. destruct (cell i r) as [s|] eqn:Es; [|discriminate].
    apply in_map_iff. exists s. split; [reflexivity|].
    eapply concrete_domain_in; eassumption. }
  pose proof (rollup Nat.add 0 (fun _ => 1) Nat.add_assoc Nat.add_comm Nat.add_0_l
                [i] (fun _ => true) _ Rp Hnd Hcov) as Hroll.
  rewrite !filter_all in Hroll by reflexivity.
  rewrite measure_count in Hroll. rewrite <- Hroll.
  unfold list_sum. f_equal. rewrite map_map. apply map_ext_in.
  intros v Hv. rewrite measure_count. unfold members, Rp. rewrite filter_and.
  f_equal. apply filter_ext. intros r.
  assert (Hnw : nonwild v = true) by (apply filter_In in Hv; tauto).
  rewrite (matches_refine idx combo j i v r Hlen Hc Hi Hnw).
  cbn [key_of map key_eqb]. rewrite andb_true_r.
  destruct (matches idx combo r); cbn [andb]; [|reflexivity].
  destruct (category_eqb (cell i r) (Some v)) eqn:E.
  - apply category_eqb_eq in E. rewrite E. cbn [plain]. now rewrite Hnw.
  - now rewrite andb_false_r.
Qed.

Lemma no_column_lookup_unless_two (combo : list string) :
  length combo <> 2 -> column_lookup (slicer_of combo) = false.
Proof.
  destruct combo as [|a [|b [|c combo]]]; simpl; intros H.
  - reflexivity.
  - now destruct (String.eqb a wildcard).
  - congruence.
  - destruct (String.eqb a wildcard), (String.eqb b wildcard); reflexivity.
Qed.

Lemma summary_count_spec (df : DataFrame) (cols combo : list string) :
  length cols <> 2 ->
  In combo (combinations df cols) ->
  summary_count (summary_of df cols) (map Some combo) = count_of df cols combo.
Proof.
  intros Hn Hc.
  assert (Hrows : s_rows (entry_of (indices_of df cols) (coerced (rows df)) combo)
                  = count_of df cols combo).
  { unfold entry_of, record_of, machine_stats, count_of, picked. cbn [s_rows fst].
    rewrite no_column_lookup_unless_two
      by (now rewrite (combinations_length df cols combo Hc)).
    now rewrite filter_matches_coerced, coerced_length. }
  unfold summary_count.
  destruct (find _ (s_body (summary_of df cols))) as [row|] eqn:Hf.
  - apply find_some in Hf. destruct Hf as [Hin Hk].
    apply summary_body_in in Hin. destruct Hin as [combo' [_ ->]].
    unfold entry_of, record_of in Hk. cbn [s_cats] in Hk.
    apply key_eqb_eq, map_Some_inj in Hk. subst combo'. exact Hrows.
  - exfalso.
    assert (Hin : In (entry_of (indices_of df cols) (coerced (rows df)) combo)
                     (s_body (summary_of df cols)))
      by (apply summary_body_in; now exists combo).
    pose proof (find_none _ _ Hf _ Hin) as Hno.
    unfold entry_of, record_of in Hno. cbn [s_cats] in Hno.
    now rewrite key_eqb_refl in Hno.
Qed.

(** X9. Roll-up consistency of the summary when the number of category
    fields is not two.  For an enumerated combination with "all" in some
    field, the row count its record reports is the sum of the row counts
    reported for the combinations that put each concrete value of that
    field's domain in its place, plus the number of selected rows whose cell
    in that field is missing or the literal "all" (rows that no concrete
    value reaches).  (With exactly two fields the records ("all", v) report 0
    and the identity fails.) *)
Theorem wildcard_count_is_sum_of_refinements (fs : filesystem) (df : DataFrame)
    (cols : list string) (outdir summary_csv : string) (flag : bool) (o : outcome) :
  export_combinations_and_summary fs df cols outdir summary_csv flag = Ok o ->
  length cols <> 2 ->
  forall combo j i,
    In combo (combinations df cols) ->
    nth_error combo j = Some wildcard ->
    nth_error (indices_of df cols) j = Some i ->
    summary_count (summary_df o) (map Some combo)
    = list_sum (map (fun v => summary_count (summary_df o) (map Some (refine j v combo)))
                    (filter nonwild (domain i (rows df))))
      + length (filter (fun r => matches (indices_of df cols) combo r
                                 && negb (plain (cell i r))) (rows df)).
Proof.
  intros H Hn combo j i Hc Hw Hi. apply export_ok_outcome in H. subst o.
  cbn [outcome_of summary_df].
  rewrite summary_count_spec by assumption.
  rewrite (map_ext_in
             (fun v => summary_count (summary_of df cols) (map Some (refine j v combo)))
             (fun v => count_of df cols (refine j v combo))).
  - unfold count_of. apply count_splits_over_domain; try assumption.
    apply combinations_length in Hc. unfold indices_of. now rewrite length_map.
  - intros v Hv. apply summary_count_spec; [assumption|]. unfold combinations.
    apply refine_enumerated with (l := domain i (rows df)).
    + exact Hc.
    + now apply (map_nth_error (fun i => domain i (rows df))).
    + apply filter_In in Hv. tauto.
Qed.

Lemma wildcard_count_is_sum_of_refinements_witness :
  summary_count (summary_of example3_df example3_cols)
                [Some "P1"; Some "all"; Some "C1"]%string
  = list_sum (map (fun v => summary_count (summary_of example3_df example3_cols)
                              (map Some (refine 1 v ["P1"; "all"; "C1"]%string)))
                  (filter nonwild (domain 1 (rows example3_df))))
    + length (filter (fun r => matches (indices_of example3_df example3_cols)
                                 ["P1"; "all"; "C1"]%string r
                               && negb (plain (cell 1 r))) (rows example3_df)).
Proof.
  assert (Hrun : export_combinations_and_summary [] example3_df example3_cols
                   "out" "summary.csv" true
                 = Ok (outcome_of [] example3_df example3_cols "out" "summary.csv" true))
    by (vm_compute; reflexivity).
  assert (Hc : In ["P1"; "all"; "C1"]%string (combinations example3_df example3_cols))
    by (apply in_product; repeat constructor; vm_compute; tauto).
  assert (Hn : length example3_cols <> 2) by (vm_compute; lia).
  exact (wildcard_count_is_sum_of_refinements [] example3_df example3_cols
           "out" "summary.csv" true _ Hrun Hn ["P1"; "all"; "C1"]%string 1 1
           Hc eq_refl eq_refl).
Defined.
